(** * stream_win.c: the Windows stream transport of watchman

    A shallow embedding of [src/stream_win.c].  The C code is sequentialised:
    every function is a Rocq function over an explicit machine state, the
    operating system is an oracle whose answers are arguments of the
    function that makes the call, and every call that leaves the process
    (allocation, Win32 I/O, event signalling) is appended to a log so that
    statements such as "no OS read is started" or "this buffer is freed
    once" can be read off the log. *)

From Stdlib Require Import ZArith List String Lia Bool.
From stdpp Require Import base list.
Import ListNotations.

Local Open Scope Z_scope.

(** ** Machine integers *)

Definition DWORD := Z.
Definition HANDLE := Z.

Definition to_DWORD (x : Z) : DWORD := x mod 2 ^ 32.
Definition to_DWORD64 (x : Z) : Z := x mod 2 ^ 64.
(** The value of a 32-bit pattern read back as a C [int]. *)
Definition to_int (x : Z) : Z :=
  let u := x mod 2 ^ 32 in if u <? 2 ^ 31 then u else u - 2 ^ 32.

(** ** Win32 constants used by the file (values of the Windows SDK) *)

Definition INVALID_HANDLE_VALUE : HANDLE := -1.
Definition INFINITE : DWORD := 4294967295.
Definition ERROR_FILE_NOT_FOUND : DWORD := 2.
Definition ERROR_SEM_TIMEOUT : DWORD := 121.
Definition ERROR_PIPE_BUSY : DWORD := 231.
Definition ERROR_IO_INCOMPLETE : DWORD := 996.
Definition ERROR_IO_PENDING : DWORD := 997.
Definition FILE_TYPE_PIPE : DWORD := 3.
Definition MAXIMUM_WAIT_OBJECTS : Z := 64.
Definition WAIT_OBJECT_0 : DWORD := 0.
Definition WAIT_ABANDONED_0 : DWORD := 128.
Definition WAIT_IO_COMPLETION : DWORD := 192.
Definition WAIT_TIMEOUT : DWORD := 258.
Definition WAIT_FAILED : DWORD := 4294967295.

(** [sizeof(h->read_buf)] *)
Definition sizeof_read_buf : Z := 8192.

(** ** errno

    [map_win32_err] is not part of the file; the value it produces is kept
    symbolic, tagged with the Win32 code it was computed from, so that the
    errno values of two different codes are told apart. *)
Inductive errno_t :=
| EAGAIN
| E2BIG
| map_win32_err (code : DWORD).

(** ** Data model *)

Record write_buf := {
  wb_id : nat;            (* identity of the allocation *)
  len : Z;
  cursor : Z;             (* offset of [cursor] from [data] *)
  data : list Byte.byte
}.

Record overlapped_op := {
  op_id : nat;            (* identity of the allocation *)
  wbuf : option write_buf
}.

(** [struct win_handle].  [write_head] is the chain reached through [next]
    from the head pointer; [write_tail] always designates the last cell of
    that chain (or is NULL when it is empty), so it is not a separate field.
    [read_cursor] is the offset of the C pointer from [read_buf]. *)
Record win_handle := {
  read_pending : option overlapped_op;
  write_pending : option overlapped_op;
  h : HANDLE;
  waitable : HANDLE;
  error_pending : bool;
  errcode : DWORD;
  file_type : DWORD;
  write_head : list write_buf;
  read_buf : list Byte.byte;
  read_cursor : Z;
  read_avail : Z;
  blocking : bool
}.

(** Heap objects the file allocates or is handed. *)
Inductive ptr :=
| PtrOp (id : nat)
| PtrWbuf (id : nat)
| PtrWbufData (id : nat)      (* [b->data], the interior of a write_buf *)
| PtrHandle                   (* the [struct win_handle] itself *)
| PtrCaller.                  (* the buffer passed in by the caller *)

(** Where a read deposits its bytes. *)
Inductive read_dst :=
| DstCaller
| DstReadBuf (off : Z).

Inductive os_event :=
| EvAlloc (p : ptr)
| EvFree (p : ptr)
| EvCancelIoEx (hnd : HANDLE) (op : nat)
| EvCloseHandle (hnd : HANDLE)
| EvResetEvent (e : HANDLE)
| EvSetEvent (e : HANDLE)
| EvGetOverlappedResultEx (hnd : HANDLE) (op : nat) (millis : DWORD)
| EvReadFile (hnd : HANDLE) (dst : read_dst) (nbytes : DWORD) (olap : option nat)
| EvWriteFile (hnd : HANDLE) (src : ptr) (nbytes : Z)
| EvWriteFileEx (hnd : HANDLE) (src : ptr) (off : Z) (nbytes : Z) (olap : nat)
| EvLogFatal (msg : string).

Record machine := {
  hd : win_handle;
  log : list os_event;
  next_id : nat;
  errno : option errno_t
}.

(** *** Field updates *)

Definition set_read_pending (v : option overlapped_op) (x : win_handle) :=
  {| read_pending := v; write_pending := write_pending x; h := h x;
     waitable := waitable x; error_pending := error_pending x;
     errcode := errcode x; file_type := file_type x;
     write_head := write_head x; read_buf := read_buf x;
     read_cursor := read_cursor x; read_avail := read_avail x;
     blocking := blocking x |}.

Definition set_write_pending (v : option overlapped_op) (x : win_handle) :=
  {| read_pending := read_pending x; write_pending := v; h := h x;
     waitable := waitable x; error_pending := error_pending x;
     errcode := errcode x; file_type := file_type x;
     write_head := write_head x; read_buf := read_buf x;
     read_cursor := read_cursor x; read_avail := read_avail x;
     blocking := blocking x |}.

Definition set_h (v : HANDLE) (x : win_handle) :=
  {| read_pending := read_pending x; write_pending := write_pending x; h := v;
     waitable := waitable x; error_pending := error_pending x;
     errcode := errcode x; file_type := file_type x;
     write_head := write_head x; read_buf := read_buf x;
     read_cursor := read_cursor x; read_avail := read_avail x;
     blocking := blocking x |}.

(** [h->errcode = c; h->error_pending = b] *)
Definition set_error (b : bool) (c : DWORD) (x : win_handle) :=
  {| read_pending := read_pending x; write_pending := write_pending x; h := h x;
     waitable := waitable x; error_pending := b;
     errcode := c; file_type := file_type x;
     write_head := write_head x; read_buf := read_buf x;
     read_cursor := read_cursor x; read_avail := read_avail x;
     blocking := blocking x |}.

Definition set_write_head (v : list write_buf) (x : win_handle) :=
  {| read_pending := read_pending x; write_pending := write_pending x; h := h x;
     waitable := waitable x; error_pending := error_pending x;
     errcode := errcode x; file_type := file_type x;
     write_head := v; read_buf := read_buf x;
     read_cursor := read_cursor x; read_avail := read_avail x;
     blocking := blocking x |}.

(** The three fields of the read buffer at once. *)
Definition set_read (b : list Byte.byte) (c a : Z) (x : win_handle) :=
  {| read_pending := read_pending x; write_pending := write_pending x; h := h x;
     waitable := waitable x; error_pending := error_pending x;
     errcode := errcode x; file_type := file_type x;
     write_head := write_head x; read_buf := b;
     read_cursor := c; read_avail := a;
     blocking := blocking x |}.

Definition set_blocking (v : bool) (x : win_handle) :=
  {| read_pending := read_pending x; write_pending := write_pending x; h := h x;
     waitable := waitable x; error_pending := error_pending x;
     errcode := errcode x; file_type := file_type x;
     write_head := write_head x; read_buf := read_buf x;
     read_cursor := read_cursor x; read_avail := read_avail x;
     blocking := v |}.

Definition with_hd (f : win_handle -> win_handle) (s : machine) : machine :=
  {| hd := f (hd s); log := log s; next_id := next_id s; errno := errno s |}.

Definition emit (e : os_event) (s : machine) : machine :=
  {| hd := hd s; log := log s ++ [e]; next_id := next_id s; errno := errno s |}.

Definition set_errno (e : errno_t) (s : machine) : machine :=
  {| hd := hd s; log := log s; next_id := next_id s; errno := Some e |}.

(** [calloc(1, sizeof(struct overlapped_op))]: a fresh identity. *)
Definition calloc_op (s : machine) : nat * machine :=
  (next_id s,
   {| hd := hd s; log := log s ++ [EvAlloc (PtrOp (next_id s))];
      next_id := S (next_id s); errno := errno s |}).

(** *** Byte ranges of an array *)

Definition bytes_at (buf : list Byte.byte) (off n : Z) : list Byte.byte :=
  take (Z.to_nat n) (drop (Z.to_nat off) buf).

(** Overwrite [buf] from offset [off] on with [src]. *)
Definition store_at (buf : list Byte.byte) (off : Z) (src : list Byte.byte)
  : list Byte.byte :=
  take (Z.to_nat off) buf ++ src ++ drop (Z.to_nat off + length src)%nat buf.

(** ** The read path *)

(** [move_from_read_buffer].  The three in/out pointers are threaded as
    values: [total] for [*total_read_ptr], [out] for the bytes written so
    far through [*target_buf_ptr], [size] for [*size_ptr]. *)
Definition move_from_read_buffer (x : win_handle)
    (total : Z) (out : list Byte.byte) (size : Z)
  : win_handle * Z * list Byte.byte * Z :=
  let nread := Z.min size (read_avail x) in
  if nread =? 0 then (x, total, out, size)
  else
    let out' := out ++ bytes_at (read_buf x) (read_cursor x) nread in
    let cur := read_cursor x + nread in
    let avail := read_avail x - nread in
    (* Pack the buffer to free up space at the rear for reads *)
    let wasted := cur in
    if wasted =? 0 then
      (set_read (read_buf x) cur avail x, total + nread, out', size - nread)
    else
      (set_read (store_at (read_buf x) 0 (bytes_at (read_buf x) cur avail))
                0 avail x,
       total + nread, out', size - nread).

(** Answer of [GetOverlappedResultEx] followed by [GetLastError]: the bytes
    a completed read deposited, or the error code. *)
Inductive olap_result :=
| OL_ok (bytes : list Byte.byte)
| OL_fail (err : DWORD).

(** Answer of [ReadFile] followed by [GetLastError]. *)
Inductive readfile_result :=
| RF_ok (bytes : list Byte.byte)
| RF_fail (err : DWORD).

Definition nbytes (l : list Byte.byte) : Z := Z.of_nat (length l).

(** A finished read: [h->read_avail += bytes], the bytes themselves having
    been placed by the OS at [read_cursor + read_avail]. *)
Definition account_read (d : list Byte.byte) (x : win_handle) : win_handle :=
  set_read (store_at (read_buf x) (read_cursor x + read_avail x) d)
           (read_cursor x) (read_avail x + nbytes d) x.

(** [free(h->read_pending); h->read_pending = NULL] *)
Definition drop_read_pending (op : overlapped_op) (s : machine) : machine :=
  with_hd (set_read_pending None) (emit (EvFree (PtrOp (op_id op))) s).

Definition win_read_handle_completion (ol : olap_result) (s : machine)
  : bool * machine :=
  match read_pending (hd s) with
  | None => (false, s)
  | Some op =>
      let s := emit (EvGetOverlappedResultEx (h (hd s)) (op_id op)
                       (if blocking (hd s) then INFINITE else 0)) s in
      match ol with
      | OL_ok d =>
          (false, drop_read_pending op (with_hd (account_read d) s))
      | OL_fail err =>
          if negb (err =? ERROR_IO_INCOMPLETE) then
            (false, with_hd (set_error true err) (drop_read_pending op s))
          else (true, s)
      end
  end.

Definition win_read_blocking (rf : readfile_result) (size : Z) (s : machine)
  : Z * list Byte.byte * machine :=
  let '(x, total_read, out, size) :=
    move_from_read_buffer (hd s) 0 [] size in
  let s := with_hd (fun _ => x) s in
  if size =? 0 then (total_read, out, s)
  else
    let s := emit (EvReadFile (h (hd s)) DstCaller (to_DWORD size) None) s in
    match rf with
    | RF_ok d => (total_read + nbytes d, out ++ d, s)
    | RF_fail err =>
        if negb (total_read =? 0) then (total_read, out, s)
        else (-1, out, set_errno (map_win32_err err) s)
    end.

Definition win_read_non_blocking (rf : readfile_result) (size : Z) (s : machine)
  : Z * list Byte.byte * machine :=
  let '(x, total_read, out, size) :=
    move_from_read_buffer (hd s) 0 [] size in
  let s := with_hd (fun _ => x) s in
  let target := read_cursor (hd s) + read_avail (hd s) in
  let target_space := to_DWORD (sizeof_read_buf - target) in
  (* Create a unique olap for each request *)
  let '(id, s) := calloc_op s in
  let op := {| op_id := id; wbuf := None |} in
  let s := with_hd (set_read_pending (Some op)) s in
  let s := if read_avail (hd s) =? 0
           then emit (EvResetEvent (waitable (hd s))) s else s in
  let s := emit (EvReadFile (h (hd s)) (DstReadBuf target) target_space
                   (Some id)) s in
  match rf with
  | RF_fail err =>
      let s := if negb (err =? ERROR_IO_PENDING)
               then drop_read_pending op s else s in
      let s := set_errno (map_win32_err err) s in
      (if total_read =? 0 then -1 else total_read, out, s)
  | RF_ok d =>
      let s := with_hd (account_read d) s in
      let s := drop_read_pending op s in
      let '(x, total_read, out, size) :=
        move_from_read_buffer (hd s) total_read out size in
      (total_read, out, with_hd (fun _ => x) s)
  end.

(** The answers the OS gives during one call of [win_read]. *)
Record read_oracle := {
  ro_olap : olap_result;
  ro_read : readfile_result
}.

Definition win_read (o : read_oracle) (size : Z) (s : machine)
  : Z * list Byte.byte * machine :=
  let '(pending, s) := win_read_handle_completion (ro_olap o) s in
  if pending then (-1, [], set_errno EAGAIN s)
  else if error_pending (hd s) then
    (* Report a prior failure *)
    (-1, [],
     with_hd (set_error false (errcode (hd s)))
       (set_errno (map_win32_err (errcode (hd s))) s))
  else if blocking (hd s) then win_read_blocking (ro_read o) size s
  else win_read_non_blocking (ro_read o) size s.

(** ** The write path *)

(** How a function of the file ends: it returns, the process is
    terminated inside [w_log], or it dereferences NULL. *)
Inductive outcome :=
| Done (s : machine)
| Aborted (s : machine)
| Fault.

Inductive log_level := W_LOG_ERR | W_LOG_FATAL.

(** Modelled from the spec: [w_log] lives outside this file.  At
    [W_LOG_FATAL] it terminates the process after logging ("must abort
    loudly", "fatal, must abort rather than return"); at any other level it
    returns to its caller. *)
Definition w_log_returns (level : log_level) : bool :=
  match level with
  | W_LOG_FATAL => false
  | W_LOG_ERR => true
  end.

(** [free(h->write_pending); h->write_pending = NULL] *)
Definition drop_write_pending (op : overlapped_op) (s : machine) : machine :=
  with_hd (set_write_pending None) (emit (EvFree (PtrOp (op_id op))) s).

(** [initiate_write]; [wfx_ok] is the answer of [WriteFileEx]. *)
Definition initiate_write (wfx_ok : bool) (s : machine) : machine :=
  match write_pending (hd s), write_head (hd s) with
  | Some _, _ => s
  | None, [] => s
  | None, wb :: rest =>
      let s := with_hd (set_write_head rest) s in
      let '(id, s) := calloc_op s in
      let op := {| op_id := id; wbuf := Some wb |} in
      let s := with_hd (set_write_pending (Some op)) s in
      let s := emit (EvWriteFileEx (h (hd s)) (PtrWbufData (wb_id wb))
                       (cursor wb) (len wb) id) s in
      if wfx_ok then s else drop_write_pending op s
  end.

Definition same_op (a : option overlapped_op) (op : overlapped_op) : bool :=
  match a with
  | Some o => Nat.eqb (op_id o) (op_id op)
  | None => false
  end.

(** [write_completed(err, bytes, olap)], the completion routine of
    [WriteFileEx]; [op] is the context recovered from [olap]. *)
Definition write_completed (wfx_ok : bool) (err bytes : DWORD)
    (op : overlapped_op) (s : machine) : outcome :=
  let s := if same_op (write_pending (hd s)) op
           then with_hd (set_write_pending None) s else s in
  let finish (s : machine) : outcome :=
    (* Send whatever else we have waiting to go *)
    let s := initiate_write wfx_ok s in
    Done (emit (EvFree (PtrOp (op_id op))) s) in
  if err =? 0 then
    match wbuf op with
    | None => Fault
    | Some wb =>
        let len' := to_int (len wb - bytes) in
        if len' =? 0 then
          (* Consumed this buffer *)
          finish (emit (EvFree (PtrWbuf (wb_id wb))) s)
        else
          let s := emit (EvLogFatal "WriteFileEx: short write") s in
          if w_log_returns W_LOG_FATAL then finish s else Aborted s
    end
  else
    finish (emit (EvSetEvent (waitable (hd s)))
              (with_hd (set_error true err) s)).

(** Answer of the synchronous [WriteFile] followed by [GetLastError]. *)
Inductive writefile_result :=
| WF_ok (bytes : DWORD)
| WF_fail (err : DWORD).

Record write_oracle := {
  wo_write : writefile_result;   (* WriteFile, direct path *)
  wo_malloc : bool;              (* malloc returned non-NULL *)
  wo_submit : bool               (* WriteFileEx, queued path *)
}.

(** The direct path is taken for a blocking non-pipe handle with nothing
    queued. *)
Definition write_is_direct (x : win_handle) : bool :=
  negb (file_type x =? FILE_TYPE_PIPE) && blocking x &&
  match write_head x with [] => true | _ => false end.

(** The first half of the queued path: allocate a [write_buf], copy [size]
    bytes of the caller's buffer into it and link it after [write_tail]. *)
Definition write_enqueue (buf : list Byte.byte) (size : Z) (s : machine)
  : write_buf * machine :=
  let wb := {| wb_id := next_id s; len := size; cursor := 0;
               data := bytes_at buf 0 size |} in
  (wb,
   {| hd := set_write_head (write_head (hd s) ++ [wb]) (hd s);
      log := log s ++ [EvAlloc (PtrWbuf (next_id s))];
      next_id := S (next_id s); errno := errno s |}).

Definition win_write (o : write_oracle) (buf : list Byte.byte) (size : Z)
    (s : machine) : Z * machine :=
  if write_is_direct (hd s) then
    let s := emit (EvWriteFile (h (hd s)) PtrCaller (to_DWORD size)) s in
    match wo_write o with
    | WF_ok bytes => (to_int bytes, s)
    | WF_fail err =>
        let s := with_hd (set_error true err) s in
        let s := set_errno (map_win32_err err) s in
        (-1, emit (EvSetEvent (waitable (hd s))) s)
    end
  else if negb (wo_malloc o) then (-1, s)
  else
    let '(_, s) := write_enqueue buf size s in
    let s := match write_pending (hd s) with
             | None => initiate_write (wo_submit o) s
             | Some _ => s
             end in
    (size, s).

Definition win_get_events (s : machine) : HANDLE := waitable (hd s).

Definition win_set_nonb (nonb : bool) (s : machine) : machine :=
  with_hd (set_blocking (negb nonb)) s.

(** What one alertable wait inside [win_shutdown] brings: the wait returns
    with nothing delivered, or the completion routine of the write in
    flight runs ([err], [bytes], and the answer of the [WriteFileEx] it
    issues for the next buffer). *)
Inductive wait_event :=
| Woke
| Completed (err bytes : DWORD) (wfx_ok : bool).

(** [win_shutdown]: one element of [script] per turn of the [while] loop;
    [None] when the script ends with a write still in flight. *)
Fixpoint shutdown_loop (script : list wait_event) (s : machine)
  : option outcome :=
  match write_pending (hd s) with
  | None => Some (Done s)
  | Some op =>
      match script with
      | [] => None
      | ev :: script =>
          let s := emit (EvGetOverlappedResultEx (h (hd s)) (op_id op)
                           INFINITE) s in
          match ev with
          | Woke => shutdown_loop script s
          | Completed err bytes wfx_ok =>
              match write_completed wfx_ok err bytes op s with
              | Done s => shutdown_loop script s
              | r => Some r
              end
          end
      end
  end.

Definition win_shutdown (script : list wait_event) (s : machine)
  : option outcome :=
  shutdown_loop script (with_hd (set_blocking true) s).

(** The [while (h->write_head)] loop of [win_close]. *)
Fixpoint free_write_queue (q : list write_buf) (s : machine) : machine :=
  match q with
  | [] => with_hd (set_write_head []) s
  | b :: q =>
      free_write_queue q
        (emit (EvFree (PtrWbuf (wb_id b)))
           (emit (EvFree (PtrWbufData (wb_id b))) s))
  end.

(** [win_close]; [cancel_r] and [cancel_w] are the answers of the two
    [CancelIoEx] calls.  The [hd] of the result is the content of the
    struct at the moment it is handed to [free]. *)
Definition win_close (cancel_r cancel_w : bool) (s : machine) : Z * machine :=
  let s :=
    match read_pending (hd s) with
    | Some op =>
        let s := emit (EvCancelIoEx (h (hd s)) (op_id op)) s in
        if cancel_r then drop_read_pending op s else s
    | None => s
    end in
  let s :=
    match write_pending (hd s) with
    | Some op =>
        let s := emit (EvCancelIoEx (h (hd s)) (op_id op)) s in
        let s := if cancel_w then drop_write_pending op s else s in
        free_write_queue (write_head (hd s)) s
    | None => s
    end in
  let s :=
    if negb (h (hd s) =? INVALID_HANDLE_VALUE) then
      with_hd (set_h INVALID_HANDLE_VALUE) (emit (EvCloseHandle (h (hd s))) s)
    else s in
  let s :=
    if negb (waitable (hd s) =? 0)
    then emit (EvCloseHandle (waitable (hd s))) s else s in
  (0, emit (EvFree PtrHandle) s).

(** ** Construction *)

Record open_oracle := {
  oo_stm : bool;          (* calloc of the stream succeeded *)
  oo_handle : bool;       (* calloc of the win_handle succeeded *)
  oo_event : HANDLE;      (* CreateEvent *)
  oo_file_type : DWORD    (* GetFileType *)
}.

Definition w_stm_handleopen (o : open_oracle) (handle : HANDLE)
  : option machine :=
  if (handle =? INVALID_HANDLE_VALUE) || (handle =? 0) then None
  else if negb (oo_stm o) then None
  else if negb (oo_handle o) then None
  else
    Some {| hd := {| read_pending := None; write_pending := None;
                     h := handle;
                     (* Initially signalled, meaning that they can try reading *)
                     waitable := oo_event o;
                     error_pending := false; errcode := 0;
                     file_type := oo_file_type o;
                     write_head := [];
                     read_buf := repeat Byte.x00 (Z.to_nat sizeof_read_buf);
                     read_cursor := 0; read_avail := 0;
                     blocking := true |};
            log := [EvAlloc PtrHandle]; next_id := 0%nat; errno := None |}.

(** ** Connecting to a named pipe *)

(** What the OS answers during one turn of the [retry_connect] loop:
    [CreateFile] (handle and last error), [GetTickCount64] at the
    accounting step, and [WaitNamedPipe] ([None] when it returns TRUE, the
    last error otherwise). *)
Record connect_attempt := {
  ca_handle : HANDLE;
  ca_err : DWORD;
  ca_tick : Z;
  ca_wait : option DWORD
}.

Inductive connect_result :=
| Connected (s : machine)
| ConnectFailed (e : option errno_t).   (* NULL; [None]: errno left alone *)

(** [if (timeoutms > 0) timeoutms -= (DWORD)(GetTickCount64() - deadline);]
    with [timeoutms] an [int], [deadline] a [DWORD64]. *)
Definition connect_account (timeoutms tick deadline : Z) : Z :=
  if 0 <? timeoutms
  then to_int (timeoutms - to_DWORD (to_DWORD64 (tick - deadline)))
  else timeoutms.

Definition retry_helps (err : DWORD) : bool :=
  (err =? ERROR_PIPE_BUSY) || (err =? ERROR_FILE_NOT_FOUND).

(** The loop from [retry_connect:] on, one [connect_attempt] per turn;
    [None] when the script of OS answers ends before the loop does. *)
Fixpoint connect_loop (o : open_oracle) (script : list connect_attempt)
    (deadline timeoutms : Z) : option connect_result :=
  match script with
  | [] => None
  | a :: script =>
      if negb (ca_handle a =? INVALID_HANDLE_VALUE) then
        Some match w_stm_handleopen o (ca_handle a) with
             | Some s => Connected s
             | None => ConnectFailed None
             end
      else
        let err := ca_err a in
        let timeoutms := connect_account timeoutms (ca_tick a) deadline in
        if (timeoutms <=? 0) || negb (retry_helps err) then
          (* either we're out of time, or retrying won't help with this error *)
          Some (ConnectFailed (Some (map_win32_err err)))
        else
          (* We can retry *)
          match ca_wait a with
          | Some err' =>
              if err' =? ERROR_SEM_TIMEOUT
              then Some (ConnectFailed (Some (map_win32_err err')))
              else
                (* ERROR_FILE_NOT_FOUND: SleepEx(10, true), a grace to allow
                   it to be created; any other code: straight back *)
                connect_loop o script deadline timeoutms
          | None => connect_loop o script deadline timeoutms
          end
  end.

(** [tick0] is the first [GetTickCount64]. *)
Definition w_stm_connect_named_pipe (o : open_oracle) (tick0 : Z)
    (script : list connect_attempt) (path : string) (timeoutms : Z)
  : option connect_result :=
  let deadline := to_DWORD64 (tick0 + timeoutms) in
  if 255 <? Z.of_nat (String.length path)
  then Some (ConnectFailed (Some E2BIG))
  else connect_loop o script deadline timeoutms.

(** ** Polling *)

Record watchman_event_poll := {
  evt : HANDLE;
  ready : bool
}.

Definition set_ready (b : bool) (e : watchman_event_poll) :=
  {| evt := evt e; ready := b |}.

Inductive poll_outcome :=
| PollAborted (msg : string)
| PollReturned (ret : Z) (p : list watchman_event_poll) (e : option errno_t).

(** The [for] loop of [w_poll_events], from index [i], [count] turns.  An
    index past the end of [p] reads handle 0 and writes nothing. *)
Fixpoint poll_clear (count i : nat) (p : list watchman_event_poll)
    (handles : list HANDLE) : list watchman_event_poll * list HANDLE :=
  match count with
  | O => (p, handles)
  | S count =>
      poll_clear count (S i) (alter (set_ready false) i p)
        (handles ++ [from_option evt 0 (p !! i)])
  end.

(** [w_poll_events]; [os_wait nCount handles millis] is
    [WaitForMultipleObjectsEx(nCount, handles, false, millis, true)],
    [lasterr] the [GetLastError] that follows. *)
Definition w_poll_events (os_wait : Z -> list HANDLE -> DWORD -> DWORD)
    (lasterr : DWORD) (p : list watchman_event_poll) (n timeoutms : Z)
  : poll_outcome :=
  let wait_and_mark :=
    let '(p, handles) := poll_clear (Z.to_nat n) 0 p [] in
    let res := os_wait (to_DWORD n) handles
                 (if timeoutms =? -1 then INFINITE else to_DWORD timeoutms) in
    if res =? WAIT_FAILED then
      PollReturned (-1) p (Some (map_win32_err lasterr))
    else if res <? to_DWORD (WAIT_OBJECT_0 + n) then
      PollReturned 1
        (alter (set_ready true) (Z.to_nat (res - WAIT_OBJECT_0)) p) None
    else if (WAIT_ABANDONED_0 <=? res) && (res <? to_DWORD (WAIT_ABANDONED_0 + n))
    then
      PollReturned 1
        (alter (set_ready true) (Z.to_nat (res - WAIT_ABANDONED_0)) p) None
    else PollReturned 0 p None in
  if MAXIMUM_WAIT_OBJECTS - 1 <? n then
    (* Programmer error :-/ *)
    if w_log_returns W_LOG_FATAL then wait_and_mark
    else PollAborted "n > MAXIMUM_WAIT_OBJECTS-1"
  else wait_and_mark.

(** *** The wait primitive

    The documented behaviour of [WaitForMultipleObjectsEx] on event
    handles with [bWaitAll = FALSE] in an alertable wait: an invalid count
    fails; otherwise the lowest index of a signaled handle is reported;
    otherwise a queued completion routine ends the wait; otherwise a zero
    timeout expires at once, and a longer wait ends as [later] says. *)
Fixpoint first_signaled (signaled : HANDLE -> bool) (handles : list HANDLE)
  : option nat :=
  match handles with
  | [] => None
  | e :: handles =>
      if signaled e then Some O
      else option_map S (first_signaled signaled handles)
  end.

Definition WaitForMultipleObjectsEx (signaled : HANDLE -> bool) (apc : bool)
    (later : DWORD) (nCount : Z) (handles : list HANDLE) (millis : DWORD)
  : DWORD :=
  if (nCount <=? 0) || (MAXIMUM_WAIT_OBJECTS <? nCount) then WAIT_FAILED
  else
    match first_signaled signaled (take (Z.to_nat nCount) handles) with
    | Some i => WAIT_OBJECT_0 + Z.of_nat i
    | None =>
        if apc then WAIT_IO_COMPLETION
        else if millis =? 0 then WAIT_TIMEOUT
        else later
    end.

(** ** Opening a path *)

Definition GENERIC_READ : DWORD := 2147483648.
Definition GENERIC_WRITE : DWORD := 1073741824.
Definition FILE_SHARE_READ : DWORD := 1.
Definition FILE_SHARE_WRITE : DWORD := 2.
Definition FILE_SHARE_DELETE : DWORD := 4.
Definition CREATE_NEW : DWORD := 1.
Definition CREATE_ALWAYS : DWORD := 2.
Definition OPEN_EXISTING : DWORD := 3.
Definition OPEN_ALWAYS : DWORD := 4.
Definition TRUNCATE_EXISTING : DWORD := 5.
Definition FILE_ATTRIBUTE_NORMAL : DWORD := 128.
Definition FILE_FLAG_BACKUP_SEMANTICS : DWORD := 33554432.

(** The arguments of one [CreateFileW] call. *)
Record createfile_request := {
  rq_path : list Z;        (* WCHAR string *)
  rq_access : DWORD;
  rq_share : DWORD;
  rq_inherit : bool;       (* sec.bInheritHandle *)
  rq_create : DWORD;
  rq_attrs : DWORD
}.

(** What [w_handle_open] takes from outside the file: the [O_*] bits of
    the platform headers, the path conversion of another file of the
    project ([None] is NULL), and [CreateFileW] followed by
    [GetLastError]. *)
Record platform := {
  O_WRONLY : Z;
  O_RDWR : Z;
  O_CREAT : Z;
  O_EXCL : Z;
  O_TRUNC : Z;
  O_CLOEXEC : Z;
  O_DIRECTORY : Z;
  w_utf8_to_win_unc : string -> option (list Z);
  CreateFileW : createfile_request -> HANDLE * DWORD
}.

Definition has (flags bits : Z) : bool := negb (Z.land flags bits =? 0).

Definition open_access (pf : platform) (flags : Z) : DWORD :=
  Z.lor (if has flags (Z.lor (O_WRONLY pf) (O_RDWR pf))
         then GENERIC_WRITE else 0)
        (if Z.land flags (O_WRONLY pf) =? 0 then GENERIC_READ else 0).

Definition open_create (pf : platform) (flags : Z) : DWORD :=
  if Z.land flags (Z.lor (O_CREAT pf) (O_EXCL pf))
     =? Z.lor (O_CREAT pf) (O_EXCL pf)
  then CREATE_NEW
  else if Z.land flags (Z.lor (O_CREAT pf) (O_TRUNC pf))
          =? Z.lor (O_CREAT pf) (O_TRUNC pf)
  then CREATE_ALWAYS
  else if has flags (O_CREAT pf) then OPEN_ALWAYS
  else if has flags (O_TRUNC pf) then TRUNCATE_EXISTING
  else OPEN_EXISTING.

(** The path after the [/dev/null] test. *)
Definition open_path (path : string) : string :=
  if String.eqb path "/dev/null" then "NUL:" else path.

(** Everything [w_handle_open] computes before calling the OS; [None]
    when the conversion of the path fails. *)
Definition open_request (pf : platform) (path : string) (flags : Z)
  : option createfile_request :=
  match w_utf8_to_win_unc pf (open_path path) with
  | None => None
  | Some wpath =>
      Some {| rq_path := wpath;
              rq_access := open_access pf flags;
              (* We want more posix-y behavior by default *)
              rq_share := Z.lor (Z.lor FILE_SHARE_DELETE FILE_SHARE_READ)
                                FILE_SHARE_WRITE;
              rq_inherit := negb (has flags (O_CLOEXEC pf));
              rq_create := open_create pf flags;
              rq_attrs := Z.lor FILE_ATTRIBUTE_NORMAL
                            (if has flags (O_DIRECTORY pf)
                             then FILE_FLAG_BACKUP_SEMANTICS else 0) |}
  end.

(** [w_handle_open]: the handle, and errno when it is assigned. *)
Definition w_handle_open (pf : platform) (path : string) (flags : Z)
  : HANDLE * option errno_t :=
  match open_request pf path flags with
  | None => (INVALID_HANDLE_VALUE, None)
  | Some rq =>
      let '(hnd, err) := CreateFileW pf rq in
      (hnd, Some (map_win32_err err))
  end.

Definition w_stm_open (pf : platform) (o : open_oracle) (path : string)
    (flags : Z) : option machine :=
  let '(hnd, _) := w_handle_open pf path flags in
  if hnd =? INVALID_HANDLE_VALUE then None
  else w_stm_handleopen o hnd.

(** ** Concrete endpoints used by the examples *)

Definition pipe_oracle : open_oracle :=
  {| oo_stm := true; oo_handle := true; oo_event := 11;
     oo_file_type := FILE_TYPE_PIPE |}.

(** A pipe endpoint as [w_stm_handleopen] builds it on handle 7. *)
Definition fresh_pipe : machine :=
  {| hd := {| read_pending := None; write_pending := None; h := 7;
              waitable := 11; error_pending := false; errcode := 0;
              file_type := FILE_TYPE_PIPE; write_head := [];
              read_buf := repeat Byte.x00 (Z.to_nat sizeof_read_buf);
              read_cursor := 0; read_avail := 0; blocking := true |};
     log := [EvAlloc PtrHandle]; next_id := 0%nat; errno := None |}.

Definition abcd : list Byte.byte := [Byte.x61; Byte.x62; Byte.x63; Byte.x64].

(** The same endpoint in non-blocking mode after a read of two bytes whose
    overlapped [ReadFile] finished at once with four: two bytes stay
    buffered. *)
Definition over_read_pipe : machine :=
  snd (win_read {| ro_olap := OL_fail ERROR_IO_INCOMPLETE; ro_read := RF_ok abcd |}
         2 (win_set_nonb true fresh_pipe)).

Definition would_block : read_oracle :=
  {| ro_olap := OL_fail ERROR_IO_INCOMPLETE;
     ro_read := RF_fail ERROR_IO_PENDING |}.

(** The events a non-blocking read adds to the log when the request fits
    in the buffer: one operation context, the reset of the event when the
    buffer was drained, one overlapped [ReadFile], and the release of the
    context unless the read stays in flight. *)
Definition read_ahead_events (rf : readfile_result) (size : Z) (s : machine)
  : list os_event :=
  let left := read_avail (hd s) - size in
  [EvAlloc (PtrOp (next_id s))] ++
  (if left =? 0 then [EvResetEvent (waitable (hd s))] else []) ++
  [EvReadFile (h (hd s)) (DstReadBuf left) (to_DWORD (sizeof_read_buf - left))
     (Some (next_id s))] ++
  match rf with
  | RF_fail err =>
      if err =? ERROR_IO_PENDING then [] else [EvFree (PtrOp (next_id s))]
  | RF_ok _ => [EvFree (PtrOp (next_id s))]
  end.

(** The OS runs the completion routine of the write in flight, if any. *)
Definition deliver_completion (wfx_ok : bool) (err bytes : DWORD)
    (s : machine) : outcome :=
  match write_pending (hd s) with
  | Some op => write_completed wfx_ok err bytes op s
  | None => Done s
  end.

Definition state_of (r : outcome) (fallback : machine) : machine :=
  match r with Done s | Aborted s => s | Fault => fallback end.

Definition queued : write_oracle :=
  {| wo_write := WF_fail 0; wo_malloc := true; wo_submit := true |}.

(** A pipe whose only write was submitted and then completed with error
    232 (the pipe is being closed). *)
Definition failed_write_pipe : machine :=
  state_of (deliver_completion true 232 0 (snd (win_write queued abcd 4 fresh_pipe)))
    fresh_pipe.

Definition set_errcode (c : DWORD) (x : win_handle) : win_handle :=
  set_error (error_pending x) c x.

(** *** Three writes, a failed submission, shutdown, close *)

Definition efgh : list Byte.byte := [Byte.x65; Byte.x66; Byte.x67; Byte.x68].
Definition ijkl : list Byte.byte := [Byte.x69; Byte.x6a; Byte.x6b; Byte.x6c].

(** [abcd] goes in flight at once; [efgh] and [ijkl] wait in the queue. *)
Definition three_writes : machine :=
  snd (win_write queued ijkl 4
         (snd (win_write queued efgh 4
                 (snd (win_write queued abcd 4 fresh_pipe))))).

(** During shutdown the write of [abcd] completes in full, and the
    [WriteFileEx] that the completion routine issues for [efgh] fails. *)
Definition after_shutdown : machine :=
  match win_shutdown [Completed 0 4 false] three_writes with
  | Some r => state_of r three_writes
  | None => three_writes
  end.

(** Number of [free] calls on [p] in a log. *)
Definition ptr_eqb (p q : ptr) : bool :=
  match p, q with
  | PtrOp a, PtrOp b | PtrWbuf a, PtrWbuf b
  | PtrWbufData a, PtrWbufData b => Nat.eqb a b
  | PtrHandle, PtrHandle | PtrCaller, PtrCaller => true
  | _, _ => false
  end.

Definition frees (p : ptr) (evs : list os_event) : nat :=
  length (List.filter (fun e => match e with
                                | EvFree q => ptr_eqb p q
                                | _ => false
                                end) evs).

(** *** A pipe that is never created *)



(** *** Three endpoints to poll *)

Definition three_endpoints : list watchman_event_poll :=
  [{| evt := 11; ready := true |}; {| evt := 12; ready := false |};
   {| evt := 13; ready := true |}].

Definition only_12 (e : HANDLE) : bool := e =? 12.
Definition none_signaled (e : HANDLE) : bool := false.

(** *** Further concrete inputs *)

(** [over_read_pipe] switched back to blocking mode: two bytes buffered. *)
Definition buffered_blocking_pipe : machine :=
  win_set_nonb false over_read_pipe.

(** An endpoint with a write in flight. *)
Definition busy_pipe : machine := snd (win_write queued abcd 4 fresh_pipe).

(** Does an event hand the caller's buffer to the OS? *)
Definition mentions_caller (e : os_event) : bool :=
  match e with
  | EvWriteFile _ PtrCaller _ | EvWriteFileEx _ PtrCaller _ _ _
  | EvReadFile _ DstCaller _ _ | EvAlloc PtrCaller | EvFree PtrCaller => true
  | _ => false
  end.

(** A path conversion and a file system for the examples: the wide path is
    the list of character codes, and only the null device can be opened. *)
Definition wide (path : string) : option (list Z) :=
  Some (List.map (fun c => Z.of_nat (Ascii.nat_of_ascii c))
          (list_ascii_of_string path)).

Definition only_nul (rq : createfile_request) : HANDLE * DWORD :=
  if decide (rq_path rq = [78; 85; 76; 58]) then (5, 0)
  else (INVALID_HANDLE_VALUE, ERROR_FILE_NOT_FOUND).

Definition nul_platform : platform :=
  {| O_WRONLY := 1; O_RDWR := 2; O_CREAT := 256; O_EXCL := 1024;
     O_TRUNC := 512; O_CLOEXEC := 128; O_DIRECTORY := 8192;
     w_utf8_to_win_unc := wide; CreateFileW := only_nul |}.

(** ** The rest of the file, and what the further theorems speak about *)

(** *** The read buffer between two calls *)

(** The bytes received from the OS and not yet handed to a caller. *)
Definition unread (x : win_handle) : list Byte.byte :=
  bytes_at (read_buf x) (read_cursor x) (read_avail x).

(** The array has its declared size, and the unread bytes sit at its
    front. *)
Definition read_inv (x : win_handle) : Prop :=
  length (read_buf x) = Z.to_nat sizeof_read_buf /\
  read_cursor x = 0 /\
  0 <= read_avail x <= sizeof_read_buf.

(** What [ReadFile] is offered by [win_read_non_blocking] for a request of
    [size] bytes: the tail of [read_buf] behind what stays buffered. *)
Definition offered_space (size : Z) (x : win_handle) : Z :=
  sizeof_read_buf - (read_avail x - Z.min size (read_avail x)).

(** *** The order of writes *)

(** The [write_buf]s handed to [WriteFileEx], in the order of the calls. *)
Definition submitted (evs : list os_event) : list nat :=
  flat_map (fun e => match e with
                     | EvWriteFileEx _ (PtrWbufData id) _ _ _ => [id]
                     | _ => []
                     end) evs.

Definition waiting (x : win_handle) : list nat := List.map wb_id (write_head x).

(** The [write_buf]s allocated, in the order of the allocations. *)
Definition enqueued (evs : list os_event) : list nat :=
  flat_map (fun e => match e with
                     | EvAlloc (PtrWbuf id) => [id]
                     | _ => []
                     end) evs.

(** Every buffer allocated so far has been handed to [WriteFileEx] or is
    still queued, in the order of the allocations, each one once. *)
Definition write_order (s : machine) : Prop :=
  submitted (log s) ++ waiting (hd s) = enqueued (log s).

Definition has_id (id : nat) (o : option overlapped_op) : bool :=
  match o with
  | Some op => Nat.eqb id (op_id op)
  | None => false
  end.

(** A caller writes, or the OS runs the completion routine of the write in
    flight. *)
Inductive write_step :=
| StepWrite (o : write_oracle) (buf : list Byte.byte) (size : Z)
| StepComplete (wfx_ok : bool) (err bytes : DWORD).

Fixpoint run_writes (steps : list write_step) (s : machine) : outcome :=
  match steps with
  | [] => Done s
  | StepWrite o buf size :: steps =>
      run_writes steps (snd (win_write o buf size s))
  | StepComplete wfx_ok err bytes :: steps =>
      match deliver_completion wfx_ok err bytes s with
      | Done s => run_writes steps s
      | r => r
      end
  end.

(** The waits of a shutdown in which every write completes in full and
    every submission is accepted: one completion for the buffer in flight,
    then one for each queued buffer. *)
Definition full_completion (wb : write_buf) : wait_event :=
  Completed 0 (to_DWORD (len wb)) true.

(** *** Manual-reset events *)

(** Which events are signaled. *)
Definition event_table := HANDLE -> bool.

Definition put_event (e : HANDLE) (b : bool) (t : event_table) : event_table :=
  fun x => if x =? e then b else t x.

(** The effect on the events of the [SetEvent] and [ResetEvent] calls of a
    log, in order. *)
Fixpoint replay (evs : list os_event) (t : event_table) : event_table :=
  match evs with
  | [] => t
  | EvSetEvent e :: evs => replay evs (put_event e true t)
  | EvResetEvent e :: evs => replay evs (put_event e false t)
  | _ :: evs => replay evs t
  end.

(** [w_event_make]: [CreateEvent(NULL, TRUE, FALSE, NULL)] answers with
    handle [fresh], a manual-reset event that is not signaled. *)
Definition w_event_make (fresh : HANDLE) (t : event_table)
  : HANDLE * event_table :=
  (fresh, put_event fresh false t).

Definition w_event_set (evt : HANDLE) (t : event_table) : event_table :=
  put_event evt true t.

(** [w_event_test_and_clear]: [WaitForSingleObject(evt, 0)] answers
    WAIT_OBJECT_0 exactly when the event is signaled, and does not change
    a manual-reset event; then [ResetEvent]. *)
Definition w_event_test_and_clear (evt : HANDLE) (t : event_table)
  : bool * event_table :=
  let was_set := (if t evt then WAIT_OBJECT_0 else WAIT_TIMEOUT) =? WAIT_OBJECT_0 in
  (was_set, put_event evt false t).

(** *** The fallback for [GetOverlappedResultEx] *)

(** What the OS answers during one turn of the loop of
    [win7_get_overlapped_result_ex]: [GetOverlappedResult] (the bytes when
    the result is available), the two readings of [GetTickCount64] around
    [SleepEx], and whether [SleepEx] was ended by a completion routine. *)
Record gor_turn := {
  gt_result : option (list Byte.byte);
  gt_start : Z;
  gt_apc : bool;
  gt_end : Z
}.

(** [win7_get_overlapped_result_ex]; the answer is the one
    [win_read_handle_completion] consumes: the bytes on TRUE, the last
    error on FALSE.  [None] when the script ends before the loop does. *)
Fixpoint win7_get_overlapped_result_ex (script : list gor_turn)
    (millis : DWORD) (alertable : bool) : option olap_result :=
  match script with
  | [] => None
  | t :: script =>
      match gt_result t with
      | Some d =>
          (* Result is available *)
          Some (OL_ok d)
      | None =>
          if alertable && gt_apc t then Some (OL_fail WAIT_IO_COMPLETION)
          else if negb (millis =? INFINITE) then
            let millis :=
              to_DWORD (to_DWORD64
                          (millis - to_DWORD64 (gt_end t - gt_start t))) in
            if millis <=? 0 then
              (* Out of time *)
              Some (OL_fail WAIT_TIMEOUT)
            else win7_get_overlapped_result_ex script millis alertable
          else win7_get_overlapped_result_ex script millis alertable
      end
  end.

(** *** Scripts for the connector *)

(** A turn of the retry loop that sends it round again: the open fails
    with a code worth retrying, the clock has not passed the deadline and
    is at most [span] before it, and [WaitNamedPipe] does not time out. *)
Definition retrying (deadline span : Z) (a : connect_attempt) : Prop :=
  ca_handle a = INVALID_HANDLE_VALUE /\
  retry_helps (ca_err a) = true /\
  ca_wait a <> Some ERROR_SEM_TIMEOUT /\
  0 <= deadline - ca_tick a <= span.




(** *** Concrete inputs for the further theorems *)

(** A non-blocking pipe whose first read is in flight (context 0). *)
Definition pending_read_pipe : machine :=
  snd (win_read would_block 4 (win_set_nonb true fresh_pipe)).

Definition read_op : overlapped_op := {| op_id := 0; wbuf := None |}.

(** A disk file opened on handle 9: writes take the direct path. *)
Definition fresh_file : machine :=
  {| hd := {| read_pending := None; write_pending := None; h := 9;
              waitable := 12; error_pending := false; errcode := 0;
              file_type := 1; write_head := [];
              read_buf := repeat Byte.x00 (Z.to_nat sizeof_read_buf);
              read_cursor := 0; read_avail := 0; blocking := true |};
     log := [EvAlloc PtrHandle]; next_id := 0%nat; errno := None |}.

Definition refused : write_oracle :=
  {| wo_write := WF_fail 0; wo_malloc := true; wo_submit := false |}.

Definition abcd_buf : write_buf :=
  {| wb_id := 0; len := 4; cursor := 0; data := abcd |}.

(** The context of the write in flight in [busy_pipe] and [three_writes]. *)
Definition abcd_op : overlapped_op := {| op_id := 1; wbuf := Some abcd_buf |}.

Definition some_writes : list write_step :=
  [StepWrite queued abcd 4; StepWrite queued efgh 4;
   StepComplete true 0 4; StepWrite queued ijkl 4; StepComplete false 0 4].

(** Two opens that find the pipe busy, 30 ms apart, then one that
    succeeds with handle 7. *)
Definition busy_twice : list connect_attempt :=
  [{| ca_handle := INVALID_HANDLE_VALUE; ca_err := ERROR_PIPE_BUSY;
      ca_tick := 1030; ca_wait := None |};
   {| ca_handle := INVALID_HANDLE_VALUE; ca_err := ERROR_PIPE_BUSY;
      ca_tick := 1060; ca_wait := None |}].

Definition opens_7 : connect_attempt :=
  {| ca_handle := 7; ca_err := 0; ca_tick := 1060; ca_wait := None |}.

Definition access_denied : connect_attempt :=
  {| ca_handle := INVALID_HANDLE_VALUE; ca_err := 5; ca_tick := 1000;
     ca_wait := None |}.


(** A turn of the fallback loop with no result, no completion routine and
    a sleep from tick [a] to tick [b]. *)
Definition slept (a b : Z) : gor_turn :=
  {| gt_result := None; gt_start := a; gt_apc := false; gt_end := b |}.

(** * Theorems *)

Lemma fresh_pipe_opened : w_stm_handleopen pipe_oracle 7 = Some fresh_pipe.
Proof. reflexivity. Qed.

(** ** Reading from the buffer *)

Lemma move_from_read_buffer_fits x total out size :
  0 < size -> size <= read_avail x -> 0 <= read_cursor x ->
  move_from_read_buffer x total out size =
  (set_read
     (store_at (read_buf x) 0
        (bytes_at (read_buf x) (read_cursor x + size) (read_avail x - size)))
     0 (read_avail x - size) x,
   total + size,
   out ++ bytes_at (read_buf x) (read_cursor x) size,
   0).
Proof.
  intros Hs Ha Hc. unfold move_from_read_buffer.
  rewrite Z.min_l by lia.
  destruct (Z.eqb_spec size 0) as [E|_]; [lia|].
  destruct (Z.eqb_spec (read_cursor x + size) 0) as [E|_]; [lia|].
  now rewrite Z.sub_diag.
Qed.

Lemma move_from_read_buffer_none x total out :
  0 <= read_avail x ->
  move_from_read_buffer x total out 0 = (x, total, out, 0).
Proof.
  intros Ha. unfold move_from_read_buffer.
  now rewrite Z.min_l by lia.
Qed.

Lemma win_read_idle o size s :
  read_pending (hd s) = None -> error_pending (hd s) = false ->
  win_read o size s =
  if blocking (hd s) then win_read_blocking (ro_read o) size s
  else win_read_non_blocking (ro_read o) size s.
Proof.
  intros Hp He. unfold win_read, win_read_handle_completion.
  now rewrite Hp, He.
Qed.

(** C1, as the code has it: a non-blocking read of [size > 0] bytes that
    the buffer can satisfy (no read pending, no latched error) returns
    [size] and the first [size] buffered bytes whatever the OS answers, and
    it does start one overlapped read into the free tail of the buffer: a
    new operation context is allocated, and the event is reset exactly when
    the call drained the buffer. *)
Theorem win_read_non_blocking_buffered o size s :
  blocking (hd s) = false ->
  read_pending (hd s) = None ->
  error_pending (hd s) = false ->
  0 <= read_cursor (hd s) ->
  0 < size -> size <= read_avail (hd s) ->
  let '(ret, out, s') := win_read o size s in
  ret = size /\
  out = bytes_at (read_buf (hd s)) (read_cursor (hd s)) size /\
  log s' = log s ++ read_ahead_events (ro_read o) size s.
Proof.
  intros Hb Hp He Hc Hs Ha.
  rewrite win_read_idle, Hb by assumption.
  unfold win_read_non_blocking, read_ahead_events.
  rewrite move_from_read_buffer_fits by assumption. cbn.
  rewrite Z.add_0_l.
  destruct (Z.eqb_spec (read_avail (hd s) - size) 0) as [E0|E0];
    destruct (ro_read o) as [d|err]; cbn.
  1, 3: rewrite move_from_read_buffer_none by (cbn; unfold nbytes; lia); cbn.
  3, 4: destruct (Z.eqb_spec size 0) as [E|_]; [lia|];
        destruct (Z.eqb_spec err ERROR_IO_PENDING); cbn.
  all: rewrite <- ?app_assoc; cbn; repeat split; lia || reflexivity.
Qed.

Lemma win_read_non_blocking_buffered_witness :
  let '(ret, out, s') := win_read would_block 2 over_read_pipe in
  ret = 2 /\
  out = bytes_at (read_buf (hd over_read_pipe))
          (read_cursor (hd over_read_pipe)) 2 /\
  log s' = log over_read_pipe ++
           read_ahead_events (ro_read would_block) 2 over_read_pipe.
Proof.
  apply (win_read_non_blocking_buffered would_block 2 over_read_pipe);
    vm_compute; congruence.
Defined.

(** C1, as stated, fails: two bytes are buffered, no read is pending, no
    error is latched, and a non-blocking read of two bytes still allocates
    an operation context, resets the event and calls [ReadFile]. *)
Lemma buffered_read_starts_os_read :
  blocking (hd over_read_pipe) = false /\
  read_pending (hd over_read_pipe) = None /\
  error_pending (hd over_read_pipe) = false /\
  read_avail (hd over_read_pipe) = 2 /\
  let '(ret, out, s') := win_read would_block 2 over_read_pipe in
  ret = 2 /\
  log s' = log over_read_pipe ++
           [EvAlloc (PtrOp 1); EvResetEvent 11;
            EvReadFile 7 (DstReadBuf 0) 8192 (Some 1%nat)] /\
  log s' <> log over_read_pipe /\
  read_pending (hd s') = Some {| op_id := 1; wbuf := None |}.
Proof. vm_compute. repeat split; congruence. Qed.

(** ** The latched error *)

Lemma move_from_read_buffer_mono x total out size :
  0 <= size -> 0 <= read_avail x ->
  let '(x', total', _, size') := move_from_read_buffer x total out size in
  total <= total' /\ 0 <= size' /\ 0 <= read_avail x'.
Proof.
  intros Hs Ha. unfold move_from_read_buffer.
  destruct (Z.eqb_spec (Z.min size (read_avail x)) 0); [lia|].
  destruct (Z.eqb_spec (read_cursor x + Z.min size (read_avail x)) 0);
    cbn; lia.
Qed.

(** A read that the OS serves returns a count, never -1. *)
Lemma win_read_blocking_served d size s :
  0 <= size -> 0 <= read_avail (hd s) ->
  0 <= fst (fst (win_read_blocking (RF_ok d) size s)).
Proof.
  intros Hs Ha. unfold win_read_blocking.
  pose proof (move_from_read_buffer_mono (hd s) 0 [] size Hs Ha) as M.
  destruct (move_from_read_buffer (hd s) 0 [] size) as [[[x t] out] sz].
  destruct (sz =? 0); cbn; unfold nbytes; lia.
Qed.

Lemma win_read_non_blocking_served d size s :
  0 <= size -> 0 <= read_avail (hd s) ->
  0 <= fst (fst (win_read_non_blocking (RF_ok d) size s)).
Proof.
  intros Hs Ha. unfold win_read_non_blocking.
  pose proof (move_from_read_buffer_mono (hd s) 0 [] size Hs Ha) as M.
  destruct (move_from_read_buffer (hd s) 0 [] size) as [[[x t] out] sz].
  cbn.
  match goal with
  | |- context [move_from_read_buffer ?y t out sz] =>
      pose proof (move_from_read_buffer_mono y t out sz) as M2;
      destruct (move_from_read_buffer y t out sz) as [[[x2 t2] out2] sz2]
  end.
  cbn. apply Z.le_trans with t; [lia|]. apply M2; [lia|].
  destruct (read_avail x =? 0); cbn; unfold nbytes; lia.
Qed.

(** The two read paths never look at [errcode]. *)
Lemma move_from_read_buffer_errcode c x total out size :
  move_from_read_buffer (set_errcode c x) total out size =
  let '(x', total', out', size') := move_from_read_buffer x total out size in
  (set_errcode c x', total', out', size').
Proof.
  unfold move_from_read_buffer. cbn.
  destruct (Z.min size (read_avail x) =? 0); [reflexivity|].
  destruct (read_cursor x + Z.min size (read_avail x) =? 0); reflexivity.
Qed.

Lemma win_read_blocking_errcode c rf size s :
  win_read_blocking rf size (with_hd (set_errcode c) s) =
  let '(ret, out, s') := win_read_blocking rf size s in
  (ret, out, with_hd (set_errcode c) s').
Proof.
  unfold win_read_blocking. cbn [hd with_hd].
  rewrite move_from_read_buffer_errcode.
  destruct (move_from_read_buffer (hd s) 0 [] size) as [[[x t] out] sz].
  destruct (sz =? 0); [reflexivity|].
  destruct rf; [reflexivity|]. destruct (t =? 0); reflexivity.
Qed.

Lemma win_read_non_blocking_errcode c rf size s :
  win_read_non_blocking rf size (with_hd (set_errcode c) s) =
  let '(ret, out, s') := win_read_non_blocking rf size s in
  (ret, out, with_hd (set_errcode c) s').
Proof.
  unfold win_read_non_blocking. cbn [hd with_hd].
  rewrite move_from_read_buffer_errcode.
  destruct (move_from_read_buffer (hd s) 0 [] size) as [[[x t] out] sz].
  cbn. destruct (read_avail x =? 0); destruct rf as [d|err]; cbn.
  1, 3: rewrite (move_from_read_buffer_errcode c
           (set_read_pending None
              (account_read d
                 (set_read_pending (Some {| op_id := next_id s; wbuf := None |}) x))));
        match goal with
        | |- context [move_from_read_buffer ?y ?a ?b ?e] =>
            destruct (move_from_read_buffer y a b e) as [[[x2 t2] out2] sz2]
        end; reflexivity.
  all: destruct (err =? ERROR_IO_PENDING); reflexivity.
Qed.

(** C2: with an error latched and no read in flight, the next [win_read]
    returns -1 with errno mapped from the latched code, touches nothing
    else and clears the latch; the read after that is served normally: it
    returns a count when the OS serves it, and its result is the same
    whatever code is still stored in [errcode]. *)
Theorem sticky_error_reported_once o1 size1 o2 size2 s :
  error_pending (hd s) = true ->
  read_pending (hd s) = None ->
  0 <= size2 -> 0 <= read_avail (hd s) ->
  let '(ret1, _, s1) := win_read o1 size1 s in
  ret1 = -1 /\
  errno s1 = Some (map_win32_err (errcode (hd s))) /\
  error_pending (hd s1) = false /\
  log s1 = log s /\
  (forall d, ro_read o2 = RF_ok d -> 0 <= fst (fst (win_read o2 size2 s1))) /\
  (forall c,
     let '(ret2, out2, s2) := win_read o2 size2 s1 in
     win_read o2 size2 (with_hd (set_errcode c) s1) =
     (ret2, out2, with_hd (set_errcode c) s2)).
Proof.
  intros He Hp Hs Ha.
  unfold win_read at 1, win_read_handle_completion. rewrite Hp, He.
  repeat split; try reflexivity.
  - intros d Hd. rewrite win_read_idle by (cbn; auto). rewrite Hd. cbn.
    destruct (blocking (hd s)).
    + now apply win_read_blocking_served.
    + now apply win_read_non_blocking_served.
  - intros c. rewrite !win_read_idle by (cbn; auto). cbn.
    destruct (blocking (hd s)).
    + rewrite win_read_blocking_errcode.
      now destruct (win_read_blocking _ _ _) as [[r out] s2].
    + rewrite win_read_non_blocking_errcode.
      now destruct (win_read_non_blocking _ _ _) as [[r out] s2].
Qed.

Lemma sticky_error_reported_once_witness :
  let '(ret1, _, s1) := win_read would_block 4 failed_write_pipe in
  ret1 = -1 /\
  errno s1 = Some (map_win32_err 232) /\
  error_pending (hd s1) = false /\
  log s1 = log failed_write_pipe /\
  (forall d, ro_read would_block = RF_ok d ->
             0 <= fst (fst (win_read would_block 4 s1))) /\
  (forall c,
     let '(ret2, out2, s2) := win_read would_block 4 s1 in
     win_read would_block 4 (with_hd (set_errcode c) s1) =
     (ret2, out2, with_hd (set_errcode c) s2)).
Proof.
  apply (sticky_error_reported_once would_block 4 would_block 4
           failed_write_pipe); vm_compute; congruence.
Defined.

(** ** Closing *)

Lemma frees_app p evs evs' :
  frees p (evs ++ evs') = (frees p evs + frees p evs')%nat.
Proof. unfold frees. now rewrite List.filter_app, length_app. Qed.

(** With no write in flight [win_close] never enters the loop that walks
    the queue: the chain is still linked when the struct is freed, and no
    [write_buf] is released. *)
Lemma win_close_idle_skips_queue cancel_r cancel_w s id :
  write_pending (hd s) = None ->
  let s' := snd (win_close cancel_r cancel_w s) in
  write_head (hd s') = write_head (hd s) /\
  frees (PtrWbuf id) (log s') = frees (PtrWbuf id) (log s).
Proof.
  intros Hw. unfold win_close, frees.
  destruct (read_pending (hd s)) as [op|] eqn:Hr; [destruct cancel_r|]; cbn;
    rewrite Hw; cbn;
    repeat match goal with
           | |- context [if ?b then _ else _] => destruct b; cbn
           end;
    rewrite ?List.filter_app, ?length_app; cbn; split; reflexivity || lia.
Qed.

Lemma free_write_queue_log q : forall s,
  log (free_write_queue q s) =
  log s ++ flat_map (fun b => [EvFree (PtrWbufData (wb_id b));
                               EvFree (PtrWbuf (wb_id b))]) q.
Proof.
  induction q as [|b q IH]; intros s; cbn.
  - now rewrite app_nil_r.
  - rewrite IH. cbn. now rewrite <- !app_assoc.
Qed.

(** With a write in flight the loop runs: the log of [win_close] contains,
    for each queued buffer in order, [free(b->data)] then [free(b)]. *)
Lemma win_close_busy_walks_queue cancel_r cancel_w s op :
  write_pending (hd s) = Some op ->
  exists before after,
    log (snd (win_close cancel_r cancel_w s)) =
    before ++
    flat_map (fun b => [EvFree (PtrWbufData (wb_id b));
                        EvFree (PtrWbuf (wb_id b))]) (write_head (hd s)) ++
    after.
Proof.
  intros Hw. unfold win_close.
  set (s1 := match read_pending (hd s) with
             | Some rop => _
             | None => s
             end).
  assert (H1 : write_pending (hd s1) = Some op /\
               write_head (hd s1) = write_head (hd s)).
  { subst s1. destruct (read_pending (hd s)); [destruct cancel_r|]; cbn; auto. }
  destruct H1 as [H1 H2]. rewrite H1.
  set (s2 := if cancel_w then _ else _).
  assert (H3 : write_head (hd s2) = write_head (hd s)).
  { subst s2. destruct cancel_w; cbn; exact H2. }
  rewrite H3.
  pose proof (free_write_queue_log (write_head (hd s)) s2) as Hq.
  set (s3 := free_write_queue _ s2) in *.
  exists (log s2).
  destruct (negb (h (hd s3) =? INVALID_HANDLE_VALUE));
    match goal with
    | |- context [if ?b then _ else _] => destruct b
    end; cbn; rewrite Hq, <- ?app_assoc; eexists; reflexivity.
Qed.

(** C3 at the failing input: three writes on a pipe, the completion of the
    first one fails to submit the second, shutdown returns with nothing in
    flight and [ijkl] (allocation 3) still queued; [win_close] then frees
    the struct without freeing that buffer, which was never handed to the
    OS either. *)
Theorem win_close_leaks_queued_buffer :
  write_pending (hd after_shutdown) = None /\
  write_head (hd after_shutdown) =
    [{| wb_id := 3; len := 4; cursor := 0; data := ijkl |}] /\
  let '(ret, s') := win_close true true after_shutdown in
  ret = 0 /\
  log s' = log after_shutdown ++
           [EvCloseHandle 7; EvCloseHandle 11; EvFree PtrHandle] /\
  In (EvAlloc (PtrWbuf 3)) (log s') /\
  frees (PtrWbuf 3) (log s') = 0%nat /\
  (forall off n op, ~ In (EvWriteFileEx 7 (PtrWbufData 3) off n op) (log s')) /\
  frees PtrHandle (log s') = 1%nat.
Proof.
  vm_compute. repeat split; try reflexivity.
  - tauto.
  - intros off n op H. repeat (destruct H as [H|H]; [discriminate H|]).
    exact H.
Qed.

(** ** Connecting *)

Lemma to_int_exact x y :
  - 2 ^ 31 <= y < 2 ^ 31 -> x mod 2 ^ 32 = y mod 2 ^ 32 -> to_int x = y.
Proof.
  intros Hy E. unfold to_int. rewrite E.
  destruct (Z_lt_le_dec y 0) as [Hneg|Hpos].
  - replace (y mod 2 ^ 32) with (y + 2 ^ 32).
    + destruct (Z.ltb_spec (y + 2 ^ 32) (2 ^ 31)); lia.
    + apply Z.mod_unique with (-1); lia.
  - rewrite Z.mod_small by lia.
    destruct (Z.ltb_spec y (2 ^ 31)); lia.
Qed.

Lemma connect_account_exact timeoutms tick deadline :
  0 < timeoutms ->
  - 2 ^ 31 <= timeoutms - (tick - deadline) < 2 ^ 31 ->
  connect_account timeoutms tick deadline = timeoutms - (tick - deadline).
Proof.
  intros Ht Hr. unfold connect_account.
  destruct (Z.ltb_spec 0 timeoutms); [|lia].
  apply to_int_exact; [exact Hr|].
  unfold to_DWORD, to_DWORD64.
  rewrite Z.mod_mod_divide by (exists (2 ^ 32); reflexivity).
  rewrite Zminus_mod_idemp_r. reflexivity.
Qed.












(** ** Polling *)

Lemma poll_clear_lookup count : forall i p hs j,
  fst (poll_clear count i p hs) !! j =
  if decide (i <= j < i + count)%nat
  then set_ready false <$> p !! j else p !! j.
Proof.
  induction count as [|count IH]; intros i p hs j; cbn [poll_clear].
  - cbn. case_decide; [lia | reflexivity].
  - rewrite IH. repeat case_decide; try lia.
    + now rewrite list_lookup_alter_ne by lia.
    + assert (j = i) as -> by lia. apply list_lookup_alter_eq.
    + now rewrite list_lookup_alter_ne by lia.
Qed.

Lemma poll_clear_length count : forall i p hs,
  length (fst (poll_clear count i p hs)) = length p.
Proof.
  induction count as [|count IH]; intros i p hs; cbn [poll_clear].
  - reflexivity.
  - now rewrite IH, length_alter.
Qed.





Lemma to_DWORD_small n : 0 <= n < 2 ^ 32 -> to_DWORD n = n.
Proof. intros H. unfold to_DWORD. now apply Z.mod_small. Qed.



(** C6: with more endpoints than [MAXIMUM_WAIT_OBJECTS - 1] the call ends
    in the fatal log, before any flag is touched and before the wait; it
    returns no value. *)
Theorem w_poll_events_too_many os_wait lasterr p n timeoutms :
  MAXIMUM_WAIT_OBJECTS - 1 < n ->
  w_poll_events os_wait lasterr p n timeoutms =
  PollAborted "n > MAXIMUM_WAIT_OBJECTS-1".
Proof.
  intros Hn. unfold w_poll_events.
  destruct (Z.ltb_spec (MAXIMUM_WAIT_OBJECTS - 1) n); [reflexivity | lia].
Qed.

Lemma w_poll_events_too_many_witness :
  w_poll_events (WaitForMultipleObjectsEx none_signaled false 0) 0
    three_endpoints 64 0 =
  PollAborted "n > MAXIMUM_WAIT_OBJECTS-1".
Proof.
  apply (w_poll_events_too_many
           (WaitForMultipleObjectsEx none_signaled false 0) 0
           three_endpoints 64 0).
  vm_compute. reflexivity.
Defined.

Lemma cleared_not_ready (p pc : list watchman_event_poll) n :
  (forall j, pc !! j =
             if decide (0 <= j < 0 + n)%nat
             then set_ready false <$> p !! j else p !! j) ->
  forall i e, (i < n)%nat -> pc !! i = Some e -> ready e = false.
Proof.
  intros H i e Hi. rewrite H. case_decide; [|lia].
  destruct (p !! i); cbn; [|discriminate]. now intros [= <-].
Qed.

Lemma marked_one (pc : list watchman_event_poll) n k :
  (forall i e, (i < n)%nat -> pc !! i = Some e -> ready e = false) ->
  forall i j ei ej,
    (i < n)%nat -> (j < n)%nat ->
    alter (set_ready true) k pc !! i = Some ei ->
    alter (set_ready true) k pc !! j = Some ej ->
    ready ei = true -> ready ej = true -> i = j.
Proof.
  intros Hc i j ei ej Hi Hj Hei Hej Ri Rj.
  assert (forall a e, (a < n)%nat ->
            alter (set_ready true) k pc !! a = Some e ->
            ready e = true -> a = k) as One.
  { intros a e Ha He Re. destruct (decide (k = a)) as [->|Hne]; [reflexivity|].
    rewrite list_lookup_alter_ne in He by exact Hne.
    rewrite (Hc a e Ha He) in Re. discriminate. }
  rewrite (One i ei Hi Hei Ri), (One j ej Hj Hej Rj). reflexivity.
Qed.

(** C9: a call of [w_poll_events] either ends in the fatal log (only when
    [n] exceeds the maximum) or returns -1, 0 or 1; on return the array
    has its length, at most one of its first [n] entries is flagged, and
    none is unless the call returned 1 -- whatever the wait reports. *)
Theorem w_poll_events_at_most_one os_wait lasterr p n timeoutms :
  match w_poll_events os_wait lasterr p n timeoutms with
  | PollAborted _ => MAXIMUM_WAIT_OBJECTS - 1 < n
  | PollReturned ret p' _ =>
      (ret = -1 \/ ret = 0 \/ ret = 1) /\
      length p' = length p /\
      (forall i j ei ej,
         Z.of_nat i < n -> Z.of_nat j < n ->
         p' !! i = Some ei -> p' !! j = Some ej ->
         ready ei = true -> ready ej = true -> i = j) /\
      (ret <> 1 ->
       forall i e, Z.of_nat i < n -> p' !! i = Some e -> ready e = false)
  end.
Proof.
  unfold w_poll_events.
  destruct (Z.ltb_spec (MAXIMUM_WAIT_OBJECTS - 1) n) as [Hn|Hn]; [exact Hn|].
  pose proof (poll_clear_lookup (Z.to_nat n) 0 p []) as Hl.
  pose proof (poll_clear_length (Z.to_nat n) 0 p []) as Hlen.
  destruct (poll_clear (Z.to_nat n) 0 p []) as [pc hs]. cbn [fst] in Hl, Hlen.
  pose proof (cleared_not_ready p pc (Z.to_nat n) Hl) as Hc.
  match goal with |- context [os_wait ?a ?b ?c] => generalize (os_wait a b c) end.
  intros res.
  assert (Same : forall i j ei ej,
            Z.of_nat i < n -> Z.of_nat j < n ->
            pc !! i = Some ei -> pc !! j = Some ej ->
            ready ei = true -> ready ej = true -> i = j).
  { intros i j ei ej Hi _ Hei _ Ri _.
    rewrite (Hc i ei) in Ri by (lia || assumption). discriminate. }
  assert (Clear : forall i e, Z.of_nat i < n -> pc !! i = Some e ->
                              ready e = false).
  { intros i e Hi. apply Hc. lia. }
  destruct (res =? WAIT_FAILED); [|destruct (res <? _); [|destruct (_ && _)]].
  - repeat split; auto.
  - repeat split; auto; [now rewrite length_alter | | congruence].
    intros i j ei ej Hi Hj. apply (marked_one pc (Z.to_nat n)); [exact Hc|lia|lia].
  - repeat split; auto; [now rewrite length_alter | | congruence].
    intros i j ei ej Hi Hj. apply (marked_one pc (Z.to_nat n)); [exact Hc|lia|lia].
  - repeat split; auto.
Qed.

(** ** A blocking read served in part from the buffer *)

(** C7: a blocking read that takes [read_avail > 0] bytes from the buffer
    and whose [ReadFile] for the rest fails returns the number of bytes
    taken from the buffer, delivers exactly those bytes and leaves errno
    alone; so does [win_read] when it reaches the blocking path. *)
Theorem win_read_blocking_partial o err size s :
  ro_read o = RF_fail err ->
  0 < read_avail (hd s) -> read_avail (hd s) < size ->
  (let '(ret, out, s') := win_read_blocking (RF_fail err) size s in
   ret = read_avail (hd s) /\
   out = bytes_at (read_buf (hd s)) (read_cursor (hd s)) (read_avail (hd s)) /\
   errno s' = errno s /\
   error_pending (hd s') = error_pending (hd s)) /\
  (blocking (hd s) = true -> read_pending (hd s) = None ->
   error_pending (hd s) = false ->
   win_read o size s = win_read_blocking (RF_fail err) size s).
Proof.
  intros Ho Ha Hs. split.
  - unfold win_read_blocking, move_from_read_buffer.
    rewrite Z.min_r by lia.
    destruct (Z.eqb_spec (read_avail (hd s)) 0) as [E|_]; [lia|].
    destruct (read_cursor (hd s) + read_avail (hd s) =? 0); cbn;
      (destruct (Z.eqb_spec (size - read_avail (hd s)) 0) as [E|_]; [lia|]);
      rewrite Z.add_0_l;
      (destruct (Z.eqb_spec (read_avail (hd s)) 0) as [E|_]; [lia|]);
      cbn; repeat split; reflexivity.
  - intros Hb Hp He. rewrite win_read_idle, Hb, Ho by assumption. reflexivity.
Qed.

Lemma win_read_blocking_partial_witness :
  (let '(ret, out, s') :=
     win_read_blocking (RF_fail 109) 10 buffered_blocking_pipe in
   ret = 2 /\
   out = [Byte.x63; Byte.x64] /\
   errno s' = errno buffered_blocking_pipe /\
   error_pending (hd s') = false) /\
  (blocking (hd buffered_blocking_pipe) = true ->
   read_pending (hd buffered_blocking_pipe) = None ->
   error_pending (hd buffered_blocking_pipe) = false ->
   win_read {| ro_olap := OL_fail 0; ro_read := RF_fail 109 |} 10
     buffered_blocking_pipe =
   win_read_blocking (RF_fail 109) 10 buffered_blocking_pipe).
Proof.
  apply (win_read_blocking_partial
           {| ro_olap := OL_fail 0; ro_read := RF_fail 109 |} 109 10
           buffered_blocking_pipe); vm_compute; congruence.
Defined.

(** ** Queued writes *)

Lemma initiate_write_no_caller wfx_ok s :
  Forall (fun e => mentions_caller e = false)
    (drop (length (log s)) (log (initiate_write wfx_ok s))).
Proof.
  unfold initiate_write.
  destruct (write_pending (hd s)); [|destruct (write_head (hd s)) as [|wb q]].
  1, 2: rewrite drop_all; constructor.
  destruct wfx_ok; cbn; rewrite <- ?app_assoc, drop_app_length; cbn;
    repeat constructor.
Qed.

(** C8: on the queued path, with [malloc] succeeding, [win_write] returns
    [size]; a fresh [write_buf] holding the first [size] bytes of the
    caller's buffer is linked at the tail of the queue, and what follows
    before the return is only the submission of the queue head when no
    write is in flight; no event of the call hands the caller's buffer to
    the OS. *)
Theorem win_write_queued o buf size s :
  write_is_direct (hd s) = false ->
  wo_malloc o = true ->
  0 <= size <= nbytes buf ->
  let wb := {| wb_id := next_id s; len := size; cursor := 0;
               data := take (Z.to_nat size) buf |} in
  let '(ret, s') := win_write o buf size s in
  ret = size /\
  nbytes (data wb) = size /\
  (exists q,
     write_head (hd q) = write_head (hd s) ++ [wb] /\
     log q = log s ++ [EvAlloc (PtrWbuf (wb_id wb))] /\
     s' = match write_pending (hd s) with
          | None => initiate_write (wo_submit o) q
          | Some _ => q
          end) /\
  (is_Some (write_pending (hd s)) ->
   write_head (hd s') = write_head (hd s) ++ [wb] /\
   write_pending (hd s') = write_pending (hd s)) /\
  Forall (fun e => mentions_caller e = false)
    (drop (length (log s)) (log s')).
Proof.
  intros Hd Hm Hs. unfold win_write. rewrite Hd, Hm. cbn.
  split; [reflexivity|]. split.
  { unfold nbytes in *. rewrite length_take. lia. }
  split.
  { eexists. split; [|split]; [| |reflexivity]; reflexivity. }
  split.
  - intros [op Hop]. rewrite Hop. cbn. auto.
  - destruct (write_pending (hd s)) as [op|] eqn:Hop.
    + cbn. rewrite drop_app_length. repeat constructor.
    + match goal with
      | |- context [initiate_write ?b ?q] =>
          pose proof (initiate_write_no_caller b q) as Hi; cbn in Hi;
          set (s2 := initiate_write b q) in *
      end.
      rewrite length_app in Hi. cbn in Hi.
      assert (Hlog : exists tl, log s2 = (log s ++ [EvAlloc (PtrWbuf (next_id s))]) ++ tl).
      { subst s2. unfold initiate_write. cbn. rewrite Hop.
        destruct (write_head (hd s) ++ _) as [|w q'];
          [exists []; now rewrite app_nil_r|].
        destruct (wo_submit o); cbn; eexists; rewrite <- ?app_assoc; reflexivity. }
      destruct Hlog as [tl Hlog]. rewrite Hlog in *.
      rewrite <- app_assoc, drop_app_length. cbn.
      constructor; [reflexivity|].
      replace (length (log s) + 1)%nat
        with (length (log s ++ [EvAlloc (PtrWbuf (next_id s))])) in Hi
        by (rewrite length_app; reflexivity).
      now rewrite drop_app_length in Hi.
Qed.

Lemma win_write_queued_witness :
  let wb := {| wb_id := next_id busy_pipe; len := 4; cursor := 0;
               data := take (Z.to_nat 4) efgh |} in
  let '(ret, s') := win_write queued efgh 4 busy_pipe in
  ret = 4 /\
  nbytes (data wb) = 4 /\
  (exists q,
     write_head (hd q) = write_head (hd busy_pipe) ++ [wb] /\
     log q = log busy_pipe ++ [EvAlloc (PtrWbuf (wb_id wb))] /\
     s' = match write_pending (hd busy_pipe) with
          | None => initiate_write (wo_submit queued) q
          | Some _ => q
          end) /\
  (is_Some (write_pending (hd busy_pipe)) ->
   write_head (hd s') = write_head (hd busy_pipe) ++ [wb] /\
   write_pending (hd s') = write_pending (hd busy_pipe)) /\
  Forall (fun e => mentions_caller e = false)
    (drop (length (log busy_pipe)) (log s')).
Proof.
  apply (win_write_queued queued efgh 4 busy_pipe).
  - reflexivity.
  - reflexivity.
  - vm_compute. split; discriminate.
Defined.

(** ** Opening the null device *)

(** C10: a path equal to "/dev/null" is replaced by "NUL:" before the
    conversion to a wide path, and [CreateFileW] is called on the request
    made of that wide path and of the access, sharing and creation
    modes of the flags: the handle returned is the one [CreateFileW]
    answers for that request, and errno is mapped from its last error.
    The call behaves as the one on "NUL:", and where the OS opens that
    device the handle is valid, [w_stm_open] goes on to build the endpoint
    on it and, memory permitting, returns the stream of that handle.  No
    other path is translated. *)
Theorem w_handle_open_dev_null pf o flags wnul :
  w_utf8_to_win_unc pf "NUL:" = Some wnul ->
  (forall rq, rq_path rq = wnul ->
              fst (CreateFileW pf rq) <> INVALID_HANDLE_VALUE) ->
  open_path "/dev/null" = "NUL:"%string /\
  (forall path, path <> "/dev/null"%string -> open_path path = path) /\
  (exists rq,
     open_request pf "/dev/null" flags = Some rq /\
     rq_path rq = wnul /\
     rq_access rq = open_access pf flags /\
     rq_create rq = open_create pf flags /\
     w_handle_open pf "/dev/null" flags =
       (fst (CreateFileW pf rq),
        Some (map_win32_err (snd (CreateFileW pf rq)))) /\
     w_stm_open pf o "/dev/null" flags =
       w_stm_handleopen o (fst (CreateFileW pf rq)) /\
     (oo_stm o = true -> oo_handle o = true ->
      fst (CreateFileW pf rq) <> 0 ->
      exists s, w_stm_open pf o "/dev/null" flags = Some s /\
                h (hd s) = fst (CreateFileW pf rq))) /\
  w_handle_open pf "/dev/null" flags = w_handle_open pf "NUL:" flags /\
  fst (w_handle_open pf "/dev/null" flags) <> INVALID_HANDLE_VALUE.
Proof.
  intros Hc Hos.
  split; [reflexivity|]. split; [|split; [|split]].
  - intros path Hp. unfold open_path.
    destruct (String.eqb_spec path "/dev/null"); [contradiction|reflexivity].
  - unfold w_stm_open, w_handle_open, open_request.
    change (open_path "/dev/null") with "NUL:"%string. rewrite Hc.
    match goal with
    | |- context [CreateFileW pf ?rq] =>
        exists rq; specialize (Hos rq eq_refl);
        destruct (CreateFileW pf rq) as [hnd err]
    end.
    cbn [fst snd] in *.
    destruct (Z.eqb_spec hnd INVALID_HANDLE_VALUE) as [E|_];
      [contradiction|].
    repeat (split; [reflexivity|]).
    intros Hstm Hh H0. unfold w_stm_handleopen.
    destruct (Z.eqb_spec hnd INVALID_HANDLE_VALUE) as [E|_];
      [contradiction|].
    destruct (Z.eqb_spec hnd 0) as [E|_]; [contradiction|].
    rewrite Hstm, Hh. cbn [orb negb]. eexists. split; reflexivity.
  - reflexivity.
  - unfold w_handle_open, open_request.
    change (open_path "/dev/null") with "NUL:"%string. rewrite Hc.
    match goal with
    | |- context [CreateFileW pf ?rq] =>
        specialize (Hos rq eq_refl); destruct (CreateFileW pf rq) as [hnd err]
    end.
    exact Hos.
Qed.

Lemma w_handle_open_dev_null_witness :
  w_handle_open nul_platform "/dev/null" 0 = (5, Some (map_win32_err 0)) /\
  exists s, w_stm_open nul_platform pipe_oracle "/dev/null" 0 = Some s /\
            h (hd s) = 5.
Proof.
  destruct (w_handle_open_dev_null nul_platform pipe_oracle 0
              [78; 85; 76; 58])
    as (_ & _ & (rq & _ & Hp & _ & _ & Hh & _ & Hs) & _).
  - reflexivity.
  - intros rq Hrq. cbn. unfold only_nul. rewrite Hrq.
    destruct (decide _) as [_|Hne]; [vm_compute; discriminate | now destruct Hne].
  - assert (Hc : CreateFileW nul_platform rq = (5, 0)).
    { cbn. unfold only_nul. rewrite Hp.
      destruct (decide _) as [_|Hne]; [reflexivity | now destruct Hne]. }
    rewrite Hc in Hh, Hs. cbn [fst snd] in Hh, Hs.
    split; [exact Hh|].
    apply Hs; [reflexivity | reflexivity | discriminate].
Defined.

(** * Further properties of the code *)

(** ** The read buffer *)

Lemma move_from_read_buffer_spec x total out size :
  read_inv x -> 0 <= size ->
  let n := Z.min size (read_avail x) in
  exists x',
    move_from_read_buffer x total out size =
      (x', total + n, out ++ take (Z.to_nat n) (unread x), size - n) /\
    read_inv x' /\
    unread x' = drop (Z.to_nat n) (unread x) /\
    read_avail x' = read_avail x - n /\
    x' = set_read (read_buf x') 0 (read_avail x') x.
Proof.
  intros (Hl & Hc & Ha) Hs n. unfold move_from_read_buffer. fold n.
  destruct x as [rp wp hh w ep ec ft wh buf c a b]. cbn in *. subst c.
  unfold sizeof_read_buf in *.
  destruct (Z.eqb_spec n 0) as [E|E].
  - eexists. rewrite E. cbn [Z.to_nat].
    rewrite take_0, drop_0, app_nil_r, Z.add_0_r, !Z.sub_0_r.
    split; [reflexivity|].
    unfold read_inv, sizeof_read_buf; cbn. repeat split; try assumption; lia.
  - assert (0 < n <= a) by lia.
    destruct (Z.eqb_spec (0 + n) 0) as [E'|_]; [lia|].
    eexists. split.
    { f_equal. f_equal. unfold unread, bytes_at. cbn.
      rewrite take_take.
      replace (Z.to_nat n `min` Z.to_nat a)%nat with (Z.to_nat n) by lia.
      reflexivity. }
    split; [|split; [|split]]; try reflexivity.
    + unfold read_inv, store_at, bytes_at, sizeof_read_buf; cbn.
      rewrite ?length_app, ?length_take, ?length_drop. repeat split; lia.
    + unfold unread, store_at, bytes_at; cbn.
      change (Z.to_nat 0) with 0%nat. rewrite !drop_0, take_0. cbn [app].
      rewrite skipn_firstn_comm.
      replace (Z.to_nat (0 + n)) with (Z.to_nat n) by lia.
      replace (Z.to_nat a - Z.to_nat n)%nat with (Z.to_nat (a - n)) by lia.
      apply take_app_length'.
      rewrite ?length_take, ?length_drop. lia.
Qed.

Lemma account_read_spec d x :
  read_inv x -> nbytes d <= sizeof_read_buf - read_avail x ->
  read_inv (account_read d x) /\
  unread (account_read d x) = unread x ++ d.
Proof.
  intros (Hl & Hc & Ha) Hd. unfold nbytes, sizeof_read_buf in *.
  destruct x as [rp wp hh w ep ec ft wh buf c a b]. cbn in *. subst c.
  unfold read_inv, unread, account_read, store_at, bytes_at, sizeof_read_buf;
    cbn. split.
  - rewrite ?length_app, ?length_take, ?length_drop. unfold nbytes.
    repeat split; lia.
  - unfold nbytes. change (Z.to_nat 0) with 0%nat. rewrite !drop_0.
    replace (Z.to_nat (0 + a)) with (Z.to_nat a) by lia.
    rewrite app_assoc.
    rewrite take_app_length'; [reflexivity|].
    rewrite ?length_app, ?length_take, ?length_drop. lia.
Qed.

(** X1: handing bytes to the caller keeps them in order and keeps the
    buffer packed: the bytes delivered so far followed by the bytes still
    buffered are the same sequence before and after, exactly
    min(size, read_avail) bytes move, and the buffer invariant holds
    again. *)
Theorem move_from_read_buffer_keeps_order x total out size :
  read_inv x -> 0 <= size ->
  let '(x', total', out', size') := move_from_read_buffer x total out size in
  read_inv x' /\
  out' ++ unread x' = out ++ unread x /\
  total' - total = Z.min size (read_avail x) /\
  size - size' = Z.min size (read_avail x) /\
  read_avail x - read_avail x' = Z.min size (read_avail x) /\
  nbytes out' - nbytes out = Z.min size (read_avail x).
Proof.
  intros Hi Hs.
  destruct (move_from_read_buffer_spec x total out size Hi Hs)
    as (x' & -> & Hi' & Hu & Ha & _).
  assert (Hlen : nbytes (unread x) = read_avail x).
  { destruct Hi as (Hl & Hc & Hb). unfold nbytes, unread, bytes_at.
    rewrite ?length_take, ?length_drop. unfold sizeof_read_buf in *. lia. }
  split; [exact Hi'|].
  split; [now rewrite Hu, <- app_assoc, take_drop|].
  unfold nbytes in *. rewrite length_app, length_take. repeat split; lia.
Qed.

Lemma move_from_read_buffer_keeps_order_witness :
  let '(x', total', out', size') :=
    move_from_read_buffer (hd over_read_pipe) 0 [] 1 in
  read_inv x' /\
  out' ++ unread x' = [] ++ unread (hd over_read_pipe) /\
  total' - 0 = Z.min 1 (read_avail (hd over_read_pipe)) /\
  1 - size' = Z.min 1 (read_avail (hd over_read_pipe)) /\
  read_avail (hd over_read_pipe) - read_avail x' =
    Z.min 1 (read_avail (hd over_read_pipe)) /\
  nbytes out' - nbytes [] = Z.min 1 (read_avail (hd over_read_pipe)).
Proof.
  apply (move_from_read_buffer_keeps_order (hd over_read_pipe) 0 [] 1).
  - vm_compute. repeat split; congruence.
  - lia.
Defined.

Lemma unread_length x : read_inv x -> nbytes (unread x) = read_avail x.
Proof.
  intros (Hl & Hc & Hb). unfold nbytes, unread, bytes_at.
  rewrite length_take, length_drop. unfold sizeof_read_buf in *. lia.
Qed.

Lemma take_length_Z (l : list Byte.byte) n :
  0 <= n <= nbytes l -> nbytes (take (Z.to_nat n) l) = n.
Proof. unfold nbytes. rewrite length_take. lia. Qed.

Lemma win_read_non_blocking_spec rf size s :
  read_inv (hd s) -> 0 <= size ->
  (forall d, rf = RF_ok d -> nbytes d <= offered_space size (hd s)) ->
  let fresh := match rf with RF_ok d => d | RF_fail _ => [] end in
  let '(ret, out, s') := win_read_non_blocking rf size s in
  read_inv (hd s') /\
  out ++ unread (hd s') = unread (hd s) ++ fresh /\
  nbytes out = Z.min size (read_avail (hd s) + nbytes fresh) /\
  ret = match rf with
        | RF_fail _ => if nbytes out =? 0 then -1 else nbytes out
        | RF_ok _ => nbytes out
        end /\
  read_pending (hd s') =
    match rf with
    | RF_fail err =>
        if err =? ERROR_IO_PENDING
        then Some {| op_id := next_id s; wbuf := None |} else None
    | RF_ok _ => None
    end /\
  errno s' = match rf with
             | RF_fail err => Some (map_win32_err err)
             | RF_ok _ => errno s
             end /\
  error_pending (hd s') = error_pending (hd s) /\
  blocking (hd s') = blocking (hd s).
Proof.
  intros Hi Hs Hfit fresh. unfold win_read_non_blocking.
  destruct (move_from_read_buffer_spec (hd s) 0 [] size Hi Hs)
    as (x1 & E1 & I1 & U1 & A1 & X1).
  assert (F1 : error_pending x1 = error_pending (hd s) /\
               blocking x1 = blocking (hd s))
    by (rewrite X1; split; reflexivity).
  destruct F1 as [F1 F1']. clear X1.
  rewrite E1. clear E1.
  pose proof (unread_length (hd s) Hi) as LU.
  set (n := Z.min size (read_avail (hd s))) in *.
  assert (Hn : 0 <= n <= read_avail (hd s)) by (destruct Hi as (_ & _ & ?); lia).
  cbn -[move_from_read_buffer Z.min Z.add Z.sub].
  destruct rf as [d|err].
  - set (op := {| op_id := next_id s; wbuf := None |}).
    set (y := set_read_pending None
                (account_read d (set_read_pending (Some op) x1))).
    assert (Hy : read_inv y /\ unread y = unread x1 ++ d).
    { destruct (account_read_spec d x1 I1) as [Iy Uy].
      - specialize (Hfit d eq_refl). unfold offered_space in Hfit. fold n in Hfit.
        lia.
      - split; [exact Iy | exact Uy]. }
    destruct Hy as [Iy Uy].
    assert (Ay : read_avail y = read_avail x1 + nbytes d) by reflexivity.
    destruct (move_from_read_buffer_spec y (0 + n)
                ([] ++ take (Z.to_nat n) (unread (hd s)))
                (size - n) Iy ltac:(lia))
      as (x2 & E2 & I2 & U2 & A2 & X2).
    assert (Hrp : read_pending x2 = None /\
                  error_pending x2 = error_pending (hd s) /\
                  blocking x2 = blocking (hd s)).
    { rewrite X2. cbn. auto. }
    clear X2.
    set (n2 := Z.min (size - n) (read_avail y)) in *.
    assert (Hn2 : 0 <= n2 <= read_avail y) by (destruct Iy as (_ & _ & ?); lia).
    pose proof (unread_length y Iy) as LY.
    set (out := ([] ++ take (Z.to_nat n) (unread (hd s))) ++
                take (Z.to_nat n2) (unread y)) in *.
    assert (Hstream : out ++ unread x2 = unread (hd s) ++ fresh).
    { subst out fresh. cbn [app].
      rewrite U2, Uy, U1, <- app_assoc, take_drop, app_assoc, take_drop.
      reflexivity. }
    assert (Hlen : nbytes out = Z.min size (read_avail (hd s) + nbytes fresh)).
    { subst out fresh. cbn [app]. unfold nbytes in *.
      rewrite length_app, !length_take. lia. }
    assert (Hret : 0 + n + n2 = nbytes out).
    { subst out. cbn [app]. unfold nbytes in *.
      rewrite length_app, !length_take. lia. }
    destruct (read_avail x1 =? 0);
      cbn -[move_from_read_buffer Z.min Z.add Z.sub];
      match goal with
      | |- context [move_from_read_buffer ?a ?b ?c ?e] =>
          change (move_from_read_buffer a b c e)
            with (move_from_read_buffer y (0 + n)
                    ([] ++ take (Z.to_nat n) (unread (hd s))) (size - n))
      end;
      rewrite E2; cbn -[Z.min Z.add Z.sub];
      (split; [exact I2|]); (split; [exact Hstream|]);
      (split; [exact Hlen|]); (split; [exact Hret|]);
      (split; [apply Hrp|]); (split; [reflexivity|]); apply Hrp.
  - assert (Hout : nbytes (take (Z.to_nat n) (unread (hd s))) = n)
      by (apply take_length_Z; lia).
    assert (Hstr : ([] ++ take (Z.to_nat n) (unread (hd s))) ++ unread x1 =
                   unread (hd s) ++ fresh).
    { subst fresh. cbn [app]. now rewrite U1, take_drop, app_nil_r. }
    assert (Hlen : nbytes ([] ++ take (Z.to_nat n) (unread (hd s))) =
                   Z.min size (read_avail (hd s) + nbytes fresh)).
    { subst fresh. cbn [app nbytes length]. rewrite Z.add_0_r. exact Hout. }
    assert (Hret : (if 0 + n =? 0 then -1 else 0 + n) =
                   (if nbytes ([] ++ take (Z.to_nat n) (unread (hd s))) =? 0
                    then -1
                    else nbytes ([] ++ take (Z.to_nat n) (unread (hd s))))).
    { cbn [app]. now rewrite Hout, Z.add_0_l. }
    destruct (read_avail x1 =? 0); destruct (err =? ERROR_IO_PENDING);
      cbn -[Z.min Z.add Z.sub read_inv unread nbytes];
      (split; [exact I1|]); (split; [exact Hstr|]);
      (split; [exact Hlen|]); (split; [exact Hret|]);
      (split; [reflexivity|]); (split; [reflexivity|]);
      (split; [exact F1 | exact F1']).
Qed.


Lemma win_read_handle_completion_ok d s op :
  read_pending (hd s) = Some op ->
  read_inv (hd s) ->
  nbytes d <= sizeof_read_buf - read_avail (hd s) ->
  exists s',
    win_read_handle_completion (OL_ok d) s = (false, s') /\
    read_pending (hd s') = None /\
    read_inv (hd s') /\
    unread (hd s') = unread (hd s) ++ d /\
    error_pending (hd s') = error_pending (hd s) /\
    blocking (hd s') = blocking (hd s) /\
    errno s' = errno s /\
    log s' = log s ++
             [EvGetOverlappedResultEx (h (hd s)) (op_id op)
                (if blocking (hd s) then INFINITE else 0);
              EvFree (PtrOp (op_id op))].
Proof.
  intros Hp Hi Hd. unfold win_read_handle_completion. rewrite Hp.
  destruct (account_read_spec d (hd s) Hi Hd) as [Ia Ua].
  eexists. split; [reflexivity|].
  cbn -[read_inv unread]. rewrite <- app_assoc.
  split; [reflexivity|]. split; [exact Ia|]. split; [exact Ua|].
  repeat split; reflexivity.
Qed.

(** X2: when the read in flight has completed, the completion check adds
    the bytes the OS deposited behind the bytes already buffered, releases
    the operation context and leaves no read pending; the buffer invariant
    holds again. *)
Theorem win_read_handle_completion_appends d s op :
  read_pending (hd s) = Some op ->
  read_inv (hd s) ->
  nbytes d <= sizeof_read_buf - read_avail (hd s) ->
  let '(pending, s') := win_read_handle_completion (OL_ok d) s in
  pending = false /\
  read_pending (hd s') = None /\
  read_inv (hd s') /\
  unread (hd s') = unread (hd s) ++ d /\
  frees (PtrOp (op_id op)) (log s') = S (frees (PtrOp (op_id op)) (log s)).
Proof.
  intros Hp Hi Hd.
  destruct (win_read_handle_completion_ok d s op Hp Hi Hd)
    as (s' & -> & H1 & H2 & H3 & _ & _ & _ & Hl).
  split; [reflexivity|]. split; [exact H1|]. split; [exact H2|].
  split; [exact H3|].
  rewrite Hl, frees_app. cbn. rewrite Nat.eqb_refl. cbn. lia.
Qed.


(** X4: a non-blocking read hands out bytes in the order they arrived,
    also when its own overlapped [ReadFile] finishes at once: what the
    caller receives followed by what stays buffered is what was buffered
    followed by what the OS deposited.  The call hands out
    min(size, buffered + deposited) bytes, and returns -1 only when it
    hands out nothing and [ReadFile] did not finish. *)
Theorem win_read_non_blocking_in_order o size s :
  blocking (hd s) = false ->
  read_pending (hd s) = None ->
  error_pending (hd s) = false ->
  read_inv (hd s) -> 0 <= size ->
  (forall d, ro_read o = RF_ok d -> nbytes d <= offered_space size (hd s)) ->
  let fresh := match ro_read o with RF_ok d => d | RF_fail _ => [] end in
  let '(ret, out, s') := win_read o size s in
  read_inv (hd s') /\
  out ++ unread (hd s') = unread (hd s) ++ fresh /\
  nbytes out = Z.min size (read_avail (hd s) + nbytes fresh) /\
  ret = match ro_read o with
        | RF_fail _ => if nbytes out =? 0 then -1 else nbytes out
        | RF_ok _ => nbytes out
        end.
Proof.
  intros Hb Hp He Hi Hs Hfit fresh.
  rewrite win_read_idle, Hb by assumption.
  pose proof (win_read_non_blocking_spec (ro_read o) size s Hi Hs Hfit) as H.
  destruct (win_read_non_blocking (ro_read o) size s) as [[ret out] s'].
  cbn zeta in H. tauto.
Qed.

(** X5: while a read is in flight and not finished, [win_read] fails with
    EAGAIN and starts nothing: the endpoint is unchanged and the only call
    made is the completion check. *)
Theorem win_read_in_flight o size s op :
  read_pending (hd s) = Some op ->
  ro_olap o = OL_fail ERROR_IO_INCOMPLETE ->
  let '(ret, out, s') := win_read o size s in
  ret = -1 /\ out = [] /\ errno s' = Some EAGAIN /\
  hd s' = hd s /\
  log s' = log s ++
           [EvGetOverlappedResultEx (h (hd s)) (op_id op)
              (if blocking (hd s) then INFINITE else 0)].
Proof.
  intros Hp Ho. unfold win_read, win_read_handle_completion.
  rewrite Hp, Ho. cbn. repeat split; reflexivity.
Qed.

(** X6: when the read in flight has failed (any code but
    ERROR_IO_INCOMPLETE), the same [win_read] reports it: -1 with errno
    mapped from that code, the context released, nothing pending or
    latched afterwards, and no new read started. *)
Theorem win_read_reports_failed_read o size s op err :
  read_pending (hd s) = Some op ->
  ro_olap o = OL_fail err ->
  err <> ERROR_IO_INCOMPLETE ->
  let '(ret, out, s') := win_read o size s in
  ret = -1 /\ out = [] /\
  errno s' = Some (map_win32_err err) /\
  errcode (hd s') = err /\
  error_pending (hd s') = false /\
  read_pending (hd s') = None /\
  log s' = log s ++
           [EvGetOverlappedResultEx (h (hd s)) (op_id op)
              (if blocking (hd s) then INFINITE else 0);
            EvFree (PtrOp (op_id op))].
Proof.
  intros Hp Ho Hne. unfold win_read, win_read_handle_completion.
  rewrite Hp, Ho.
  destruct (Z.eqb_spec err ERROR_IO_INCOMPLETE) as [E|_]; [contradiction|].
  cbn. rewrite <- app_assoc. repeat split; reflexivity.
Qed.

(** X7: a non-blocking read on an endpoint with nothing buffered, whose
    overlapped [ReadFile] stays in flight, fails with the errno mapped from
    ERROR_IO_PENDING and leaves the read pending; once the OS has completed
    that read with [d], the next [win_read] returns a positive count and
    hands out the first bytes of [d] (followed by what its own read-ahead
    deposited at once, if the request is larger). *)
Theorem win_read_after_would_block o1 o2 size1 size2 d s :
  blocking (hd s) = false ->
  read_pending (hd s) = None ->
  error_pending (hd s) = false ->
  read_inv (hd s) -> read_avail (hd s) = 0 ->
  0 < size1 -> 0 < size2 ->
  ro_read o1 = RF_fail ERROR_IO_PENDING ->
  ro_olap o2 = OL_ok d ->
  0 < nbytes d <= sizeof_read_buf ->
  (forall d2, ro_read o2 = RF_ok d2 ->
              nbytes d2 <= sizeof_read_buf - (nbytes d - Z.min size2 (nbytes d))) ->
  let fresh := match ro_read o2 with RF_ok d2 => d2 | RF_fail _ => [] end in
  let '(ret1, out1, s1) := win_read o1 size1 s in
  ret1 = -1 /\ out1 = [] /\
  errno s1 = Some (map_win32_err ERROR_IO_PENDING) /\
  is_Some (read_pending (hd s1)) /\
  let '(ret2, out2, s2) := win_read o2 size2 s1 in
  0 < ret2 /\ ret2 = nbytes out2 /\
  ret2 = Z.min size2 (nbytes d + nbytes fresh) /\
  out2 ++ unread (hd s2) = d ++ fresh.
Proof.
  intros Hb Hp He Hi Ha Hs1 Hs2 Ho1 Ho2 Hd Hfit fresh.
  rewrite win_read_idle, Hb by assumption.
  pose proof (win_read_non_blocking_spec (ro_read o1) size1 s Hi
                ltac:(lia)) as H1.
  rewrite Ho1 in *. specialize (H1 ltac:(discriminate)). cbn zeta in H1.
  destruct (win_read_non_blocking (RF_fail ERROR_IO_PENDING) size1 s)
    as [[ret1 out1] s1].
  destruct H1 as (I1 & U1 & L1 & R1 & P1 & E1 & EP1 & B1).
  cbn [nbytes length] in L1. rewrite Ha, Z.add_0_r, Z.min_r in L1 by lia.
  assert (out1 = []) as ->.
  { destruct out1; [reflexivity | discriminate L1]. }
  cbn in R1, P1, U1. rewrite app_nil_r in U1.
  split; [exact R1|]. split; [reflexivity|]. split; [exact E1|].
  split; [rewrite P1; eexists; reflexivity|].
  assert (A1 : read_avail (hd s1) = 0).
  { rewrite <- (unread_length _ I1), U1, (unread_length _ Hi). exact Ha. }
  assert (U0 : unread (hd s1) = []).
  { pose proof (unread_length _ I1) as L. rewrite A1 in L.
    destruct (unread (hd s1)); [reflexivity | discriminate L]. }
  destruct (win_read_handle_completion_ok d s1 _ P1 I1 ltac:(lia))
    as (s1' & Ec & Pc & Ic & Uc & EPc & Bc & _ & _).
  unfold win_read. rewrite Ho2, Ec, Pc || rewrite Ho2, Ec.
  rewrite EPc, EP1, He, Bc, B1, Hb.
  assert (Ac : read_avail (hd s1') = nbytes d).
  { rewrite <- (unread_length _ Ic), Uc, U0. reflexivity. }
  pose proof (win_read_non_blocking_spec (ro_read o2) size2 s1' Ic
                ltac:(lia)) as H2.
  unfold offered_space in H2. rewrite Ac in H2.
  specialize (H2 Hfit). cbn zeta in H2.
  destruct (win_read_non_blocking (ro_read o2) size2 s1') as [[ret2 out2] s2].
  destruct H2 as (I2 & U2 & L2 & R2 & _).
  rewrite Uc, U0 in U2. cbn [app] in U2. fold fresh in U2, L2.
  assert (0 < nbytes out2) by (unfold nbytes in *; lia).
  assert (ret2 = nbytes out2).
  { rewrite R2. destruct (ro_read o2); [reflexivity|].
    destruct (Z.eqb_spec (nbytes out2) 0); [lia | reflexivity]. }
  repeat split; try lia. exact U2.
Qed.

(** ** The write queue *)

Lemma submitted_app a b : submitted (a ++ b) = submitted a ++ submitted b.
Proof. apply flat_map_app. Qed.

Lemma enqueued_app a b : enqueued (a ++ b) = enqueued a ++ enqueued b.
Proof. apply flat_map_app. Qed.

(** What [initiate_write] leaves alone, and how it moves the head of the
    queue to the log. *)
Lemma initiate_write_frame wfx_ok s :
  let s' := initiate_write wfx_ok s in
  read_pending (hd s') = read_pending (hd s) /\
  error_pending (hd s') = error_pending (hd s) /\
  errcode (hd s') = errcode (hd s) /\
  blocking (hd s') = blocking (hd s) /\
  waitable (hd s') = waitable (hd s) /\
  errno s' = errno s /\
  submitted (log s') ++ waiting (hd s') = submitted (log s) ++ waiting (hd s) /\
  enqueued (log s') = enqueued (log s) /\
  (forall e, In (EvSetEvent e) (log s') <-> In (EvSetEvent e) (log s)) /\
  (forall id, frees (PtrWbuf id) (log s') = frees (PtrWbuf id) (log s)).
Proof.
  unfold initiate_write.
  destruct (write_pending (hd s)); [|destruct (write_head (hd s)) as [|wb q] eqn:Hq].
  1, 2: cbn zeta; repeat split; tauto.
  destruct wfx_ok; cbn -[frees]; unfold waiting;
    rewrite ?submitted_app, ?enqueued_app, ?frees_app, Hq; cbn;
    rewrite ?app_nil_r, <- ?app_assoc; cbn;
    repeat split; try reflexivity; try lia;
    try (intros; rewrite frees_app; cbn; lia);
    rewrite ?in_app_iff; cbn; intuition congruence.
Qed.

Lemma win_write_order o buf size s :
  write_order s -> write_order (snd (win_write o buf size s)).
Proof.
  unfold write_order, win_write. intros H.
  destruct (write_is_direct (hd s)).
  { destruct (wo_write o); cbn; unfold waiting in *; cbn;
      rewrite submitted_app, enqueued_app; cbn;
      rewrite ?submitted_app, ?enqueued_app; cbn;
      rewrite ?app_nil_r; exact H. }
  destruct (wo_malloc o); cbn; [|exact H].
  set (q := {| hd := _; log := _; next_id := _; errno := _ |}).
  assert (Hq : submitted (log q) ++ waiting (hd q) = enqueued (log q)).
  { subst q. cbn. unfold waiting in *. cbn.
    rewrite submitted_app, enqueued_app, List.map_app. cbn.
    rewrite app_nil_r, app_assoc, H. reflexivity. }
  destruct (write_pending (hd s)); [exact Hq|].
  destruct (initiate_write_frame (wo_submit o) q)
    as (_ & _ & _ & _ & _ & _ & Hs & He & _).
  now rewrite Hs, He.
Qed.

Lemma write_order_emit e s :
  submitted [e] = [] -> enqueued [e] = [] ->
  write_order s -> write_order (emit e s).
Proof.
  unfold write_order. cbn [emit log hd]. intros Hs He H.
  now rewrite submitted_app, enqueued_app, Hs, He, !app_nil_r.
Qed.

Lemma write_order_initiate wfx_ok s :
  write_order s -> write_order (initiate_write wfx_ok s).
Proof.
  unfold write_order. intros H.
  destruct (initiate_write_frame wfx_ok s)
    as (_ & _ & _ & _ & _ & _ & Hs & He & _).
  now rewrite Hs, He.
Qed.

Lemma write_completed_order wfx_ok err bytes op s s' :
  write_order s ->
  write_completed wfx_ok err bytes op s = Done s' ->
  write_order s'.
Proof.
  unfold write_completed. intros H.
  set (s0 := if same_op _ _ then _ else s).
  assert (H0 : write_order s0).
  { subst s0. destruct (same_op _ _); exact H. }
  clearbody s0.
  destruct (err =? 0).
  - destruct (wbuf op) as [wb|]; [|discriminate].
    destruct (to_int (len wb - bytes) =? 0); [|discriminate].
    intros [= <-].
    apply write_order_emit; [reflexivity | reflexivity |].
    apply write_order_initiate.
    apply write_order_emit; [reflexivity | reflexivity | exact H0].
  - intros [= <-].
    apply write_order_emit; [reflexivity | reflexivity |].
    apply write_order_initiate.
    apply write_order_emit; [reflexivity | reflexivity | exact H0].
Qed.

(** X8: writes reach the OS in the order they were made.  Along any
    sequence of [win_write] calls and completion callbacks that does not
    abort, the buffers handed to [WriteFileEx] followed by the buffers
    still queued are the buffers allocated, in allocation order and each
    one once. *)
Theorem write_order_kept steps : forall s s',
  write_order s ->
  run_writes steps s = Done s' ->
  write_order s'.
Proof.
  induction steps as [|[o buf size|wfx_ok err bytes] steps IH];
    intros s s' H; cbn.
  - now intros [= <-].
  - apply IH. now apply win_write_order.
  - unfold deliver_completion.
    destruct (write_pending (hd s)) as [op|].
    + destruct (write_completed wfx_ok err bytes op s) as [s1| |] eqn:E;
        try discriminate.
      apply IH. eapply write_completed_order; eassumption.
    + now apply IH.
Qed.

Lemma nothing_left n : to_int (n - to_DWORD n) = 0.
Proof.
  unfold to_int, to_DWORD.
  rewrite Zminus_mod_idemp_r, Z.sub_diag. reflexivity.
Qed.

Lemma write_completed_full wfx_ok op wb s :
  write_pending (hd s) = Some op -> wbuf op = Some wb ->
  write_completed wfx_ok 0 (to_DWORD (len wb)) op s =
  Done (emit (EvFree (PtrOp (op_id op)))
          (initiate_write wfx_ok
             (emit (EvFree (PtrWbuf (wb_id wb)))
                (with_hd (set_write_pending None) s)))).
Proof.
  intros Hp Hw. unfold write_completed.
  rewrite Hp, Hw, nothing_left. cbn [same_op]. rewrite Nat.eqb_refl.
  reflexivity.
Qed.

Lemma shutdown_loop_step ev script s op :
  write_pending (hd s) = Some op ->
  shutdown_loop (ev :: script) s =
  let s1 := emit (EvGetOverlappedResultEx (h (hd s)) (op_id op) INFINITE) s in
  match ev with
  | Woke => shutdown_loop script s1
  | Completed err bytes wfx_ok =>
      match write_completed wfx_ok err bytes op s1 with
      | Done s2 => shutdown_loop script s2
      | r => Some r
      end
  end.
Proof. intros Hp. cbn [shutdown_loop]. rewrite Hp. reflexivity. Qed.

Lemma initiate_write_pop s wb q :
  write_pending (hd s) = None -> write_head (hd s) = wb :: q ->
  let s' := initiate_write true s in
  write_pending (hd s') = Some {| op_id := next_id s; wbuf := Some wb |} /\
  write_head (hd s') = q /\
  blocking (hd s') = blocking (hd s) /\
  log s' = log s ++
           [EvAlloc (PtrOp (next_id s));
            EvWriteFileEx (h (hd s)) (PtrWbufData (wb_id wb)) (cursor wb)
              (len wb) (next_id s)].
Proof.
  intros Hp Hq. unfold initiate_write. rewrite Hp, Hq. cbn.
  rewrite <- app_assoc. repeat split; reflexivity.
Qed.

Lemma shutdown_loop_drains q : forall s op wb,
  write_pending (hd s) = Some op -> wbuf op = Some wb ->
  write_head (hd s) = q ->
  exists s' tail,
    shutdown_loop (List.map full_completion (wb :: q)) s = Some (Done s') /\
    write_pending (hd s') = None /\
    write_head (hd s') = [] /\
    blocking (hd s') = blocking (hd s) /\
    log s' = log s ++ tail /\
    submitted tail = List.map wb_id q /\
    Forall (fun b => In (EvFree (PtrWbuf (wb_id b))) tail) (wb :: q).
Proof.
  induction q as [|b q IH]; intros s op wb Hp Hw Hq;
    change (List.map full_completion (wb :: ?l))
      with (full_completion wb :: List.map full_completion l);
    rewrite (shutdown_loop_step _ _ s op Hp); cbn zeta;
    unfold full_completion at 1;
    rewrite write_completed_full by (cbn; assumption).
  - unfold initiate_write. cbn. rewrite Hq. cbn.
    eexists. eexists. split; [reflexivity|]. cbn.
    rewrite <- !app_assoc. cbn.
    repeat split; try reflexivity; try exact Hq.
    constructor; [cbn; tauto | constructor].
  - set (s1 := emit (EvFree (PtrWbuf (wb_id wb))) _).
    destruct (initiate_write_pop s1 b q eq_refl Hq) as (P2 & Q2 & B2 & L2).
    set (s2 := initiate_write true s1) in *.
    destruct (IH (emit (EvFree (PtrOp (op_id op))) s2)
                {| op_id := next_id s1; wbuf := Some b |} b P2 eq_refl Q2)
      as (s' & tail & E & P & Q & B & L & S & F).
    rewrite E.
    eexists. eexists. split; [reflexivity|].
    split; [exact P|]. split; [exact Q|].
    split; [rewrite B; exact B2|].
    cbn [log emit] in L. rewrite L2 in L. subst s1. cbn [log emit with_hd] in L.
    rewrite <- !app_assoc in L. cbn [app] in L.
    split; [exact L|]. unfold submitted in *. cbn. rewrite S.
    split; [reflexivity|].
    constructor; [cbn; tauto|].
    eapply Forall_impl; [exact F|]. cbn. intros x Hx.
    do 5 right. exact Hx.
Qed.

(** X9: a shutdown during which every write completes in full and every
    submission is accepted empties the endpoint: it returns with nothing
    in flight and nothing queued, in blocking mode, every queued buffer
    having been handed to [WriteFileEx] in queue order, and the buffer in
    flight and every queued buffer having been freed. *)
Theorem win_shutdown_drains s op wb :
  write_pending (hd s) = Some op -> wbuf op = Some wb ->
  exists s',
    win_shutdown (List.map full_completion (wb :: write_head (hd s))) s =
      Some (Done s') /\
    write_pending (hd s') = None /\
    write_head (hd s') = [] /\
    blocking (hd s') = true /\
    submitted (log s') = submitted (log s) ++ waiting (hd s) /\
    Forall (fun b => In (EvFree (PtrWbuf (wb_id b))) (log s'))
      (wb :: write_head (hd s)).
Proof.
  intros Hp Hw. unfold win_shutdown.
  destruct (shutdown_loop_drains (write_head (hd s))
              (with_hd (set_blocking true) s) op wb Hp Hw eq_refl)
    as (s' & tail & E & P & Q & B & L & S & F).
  exists s'. split; [exact E|]. split; [exact P|]. split; [exact Q|].
  split; [exact B|]. cbn [log with_hd] in L. rewrite L, submitted_app, S.
  split; [reflexivity|].
  eapply Forall_impl; [exact F|]. cbn. intros b Hb.
  apply in_or_app. now right.
Qed.

Lemma win_shutdown_drains_witness :
  exists s',
    win_shutdown (List.map full_completion
                    ({| wb_id := 0; len := 4; cursor := 0; data := abcd |}
                     :: write_head (hd three_writes))) three_writes =
      Some (Done s') /\
    write_pending (hd s') = None /\
    write_head (hd s') = [] /\
    blocking (hd s') = true /\
    submitted (log s') = submitted (log three_writes) ++ waiting (hd three_writes) /\
    Forall (fun b => In (EvFree (PtrWbuf (wb_id b))) (log s'))
      ({| wb_id := 0; len := 4; cursor := 0; data := abcd |}
       :: write_head (hd three_writes)).
Proof.
  apply (win_shutdown_drains three_writes
           {| op_id := 1;
              wbuf := Some {| wb_id := 0; len := 4; cursor := 0; data := abcd |} |}
           {| wb_id := 0; len := 4; cursor := 0; data := abcd |});
    reflexivity.
Defined.

Lemma write_completed_frame wfx_ok err bytes op s s' :
  write_completed wfx_ok err bytes op s = Done s' ->
  blocking (hd s') = blocking (hd s) /\
  read_pending (hd s') = read_pending (hd s).
Proof.
  unfold write_completed.
  set (s0 := if same_op _ _ then _ else s).
  assert (H0 : blocking (hd s0) = blocking (hd s) /\
               read_pending (hd s0) = read_pending (hd s)).
  { subst s0. destruct (same_op _ _); split; reflexivity. }
  clearbody s0. destruct H0 as [B0 R0].
  destruct (err =? 0).
  - destruct (wbuf op) as [wb|]; [|discriminate].
    destruct (to_int (len wb - bytes) =? 0); [|discriminate].
    intros [= <-]. cbn [hd emit].
    match goal with
    | |- context [initiate_write ?b ?q] =>
        destruct (initiate_write_frame b q) as (R & _ & _ & B & _)
    end.
    rewrite B, R. cbn. auto.
  - intros [= <-]. cbn [hd emit].
    match goal with
    | |- context [initiate_write ?b ?q] =>
        destruct (initiate_write_frame b q) as (R & _ & _ & B & _)
    end.
    rewrite B, R. cbn. auto.
Qed.

Lemma shutdown_loop_idle script : forall s s',
  shutdown_loop script s = Some (Done s') ->
  write_pending (hd s') = None /\ blocking (hd s') = blocking (hd s).
Proof.
  induction script as [|ev script IH]; intros s s'; cbn [shutdown_loop];
    destruct (write_pending (hd s)) as [op|] eqn:Hp;
    try discriminate; try (intros [= <-]; auto).
  destruct ev as [|err bytes wfx_ok].
  - intros H. apply IH in H. exact H.
  - destruct (write_completed _ _ _ _ _) as [s1| |] eqn:E; try discriminate.
    intros H. apply IH in H as [P B]. split; [exact P|].
    apply write_completed_frame in E as [E _]. rewrite B, E. reflexivity.
Qed.

(** X10: whenever [win_shutdown] returns, no write is in flight and the
    endpoint is in blocking mode, whatever the completions were; and on an
    endpoint with no write in flight it returns at once without waiting
    (queued buffers, if any, stay queued). *)
Theorem win_shutdown_returns_idle script s :
  (forall s', win_shutdown script s = Some (Done s') ->
              write_pending (hd s') = None /\ blocking (hd s') = true) /\
  (write_pending (hd s) = None ->
   win_shutdown script s = Some (Done (with_hd (set_blocking true) s))).
Proof.
  unfold win_shutdown. split.
  - intros s' H. apply shutdown_loop_idle in H. exact H.
  - intros Hp. destruct script; cbn; rewrite Hp; reflexivity.
Qed.

(** X11: a write that fails asynchronously reaches the reader: after the
    completion routine has run with an error code, the event is signaled
    and the next [win_read] (no read being in flight) returns -1 with
    errno mapped from that code. *)
Theorem write_failure_reaches_reader wfx_ok err bytes op o size s :
  err <> 0 ->
  read_pending (hd s) = None ->
  exists s1,
    write_completed wfx_ok err bytes op s = Done s1 /\
    In (EvSetEvent (waitable (hd s))) (log s1) /\
    let '(ret, out, s2) := win_read o size s1 in
    ret = -1 /\ out = [] /\
    errno s2 = Some (map_win32_err err) /\
    error_pending (hd s2) = false.
Proof.
  intros Herr Hp. unfold write_completed.
  destruct (Z.eqb_spec err 0) as [E|_]; [contradiction|].
  set (s0 := if same_op _ _ then _ else s).
  assert (H0 : read_pending (hd s0) = None /\ waitable (hd s0) = waitable (hd s)).
  { subst s0. destruct (same_op _ _); split; assumption || reflexivity. }
  clearbody s0. destruct H0 as [R0 W0].
  eexists. split; [reflexivity|].
  match goal with
  | |- context [initiate_write ?b ?q] =>
      destruct (initiate_write_frame b q)
        as (R & EP & EC & _ & _ & _ & _ & _ & I & _);
      set (s1 := initiate_write b q) in *
  end.
  cbn in R, EP, EC. split.
  - cbn [log emit]. apply in_or_app. left. apply I. cbn.
    apply in_or_app. right. rewrite W0. now left.
  - unfold win_read, win_read_handle_completion. cbn [hd emit].
    rewrite R, R0. cbn [hd emit]. rewrite EP, EC. cbn.
    repeat split; reflexivity.
Qed.

(** X12: a write on the direct path that the OS refuses is reported
    twice: the call itself returns -1 with errno mapped from the code,
    queues nothing and signals the event, and the next [win_read] (no read
    being in flight) returns -1 with the same errno. *)
Theorem direct_write_failure_reported o buf size err o2 size2 s :
  write_is_direct (hd s) = true ->
  wo_write o = WF_fail err ->
  read_pending (hd s) = None ->
  let '(ret, s1) := win_write o buf size s in
  ret = -1 /\
  errno s1 = Some (map_win32_err err) /\
  write_head (hd s1) = write_head (hd s) /\
  log s1 = log s ++ [EvWriteFile (h (hd s)) PtrCaller (to_DWORD size);
                     EvSetEvent (waitable (hd s))] /\
  let '(ret2, out2, s2) := win_read o2 size2 s1 in
  ret2 = -1 /\ out2 = [] /\
  errno s2 = Some (map_win32_err err) /\
  error_pending (hd s2) = false /\
  log s2 = log s1.
Proof.
  intros Hd Ho Hp. unfold win_write. rewrite Hd, Ho. cbn -[to_DWORD].
  split; [reflexivity|]. split; [reflexivity|]. split; [reflexivity|].
  split; [now rewrite <- app_assoc|].
  unfold win_read, win_read_handle_completion. cbn -[to_DWORD].
  rewrite Hp. cbn -[to_DWORD].
  repeat split; reflexivity.
Qed.

Lemma initiate_write_frees_op wfx_ok s id :
  (id < next_id s)%nat ->
  let s' := initiate_write wfx_ok s in
  frees (PtrOp id) (log s') = frees (PtrOp id) (log s) /\
  (write_pending (hd s) = None -> has_id id (write_pending (hd s')) = false).
Proof.
  intros Hid. unfold initiate_write.
  destruct (write_pending (hd s)) eqn:Hp;
    [|destruct (write_head (hd s)) as [|wb q]].
  1, 2: cbn zeta; split; [reflexivity | intros; try discriminate; now rewrite Hp].
  destruct wfx_ok; cbn -[frees]; rewrite ?frees_app; cbn.
  - split; [lia|]. intros _. apply Nat.eqb_neq. lia.
  - destruct (Nat.eqb_spec id (next_id s)); [lia|]. cbn. split; [lia | reflexivity].
Qed.

(** X13: the completion routine accounts for a write by its byte count.
    When the count leaves nothing of the buffer, the buffer and the
    operation context are each freed once more and the next queued buffer
    may go in flight under a new context; any other count ends in the
    fatal log with the buffer not freed. *)
Theorem write_completed_accounts wfx_ok bytes op wb s :
  write_pending (hd s) = Some op -> wbuf op = Some wb ->
  (op_id op < next_id s)%nat ->
  if to_int (len wb - bytes) =? 0 then
    exists s',
      write_completed wfx_ok 0 bytes op s = Done s' /\
      frees (PtrWbuf (wb_id wb)) (log s') =
        S (frees (PtrWbuf (wb_id wb)) (log s)) /\
      frees (PtrOp (op_id op)) (log s') = S (frees (PtrOp (op_id op)) (log s)) /\
      has_id (op_id op) (write_pending (hd s')) = false
  else
    exists s',
      write_completed wfx_ok 0 bytes op s = Aborted s' /\
      frees (PtrWbuf (wb_id wb)) (log s') = frees (PtrWbuf (wb_id wb)) (log s) /\
      log s' = log s ++ [EvLogFatal "WriteFileEx: short write"].
Proof.
  intros Hp Hw Hid. unfold write_completed.
  rewrite Hp, Hw. cbn [same_op]. rewrite Nat.eqb_refl. cbn [Z.eqb].
  destruct (to_int (len wb - bytes) =? 0).
  - eexists. split; [reflexivity|].
    match goal with
    | |- context [initiate_write ?b ?q] =>
        destruct (initiate_write_frame b q)
          as (_ & _ & _ & _ & _ & _ & _ & _ & _ & Fw);
        destruct (initiate_write_frees_op b q (op_id op) Hid) as [Fo Ho];
        set (s1 := initiate_write b q) in *
    end.
    clearbody s1. cbn -[frees] in *.
    rewrite !frees_app, Fw, Fo, !frees_app. cbn. rewrite !Nat.eqb_refl. cbn.
    split; [lia|]. split; [lia|]. apply Ho. reflexivity.
  - eexists. split; [reflexivity|]. cbn -[frees]. rewrite frees_app. cbn.
    split; [lia | reflexivity].
Qed.

(** X14: a submission that [WriteFileEx] refuses is silent.  On an idle
    endpoint [win_write] still returns [size], yet the buffer it allocated
    is neither queued nor in flight nor freed afterwards, no error is
    latched, errno is untouched and the event is not signaled. *)
Theorem win_write_refused_submission o buf size s :
  write_is_direct (hd s) = false ->
  wo_malloc o = true -> wo_submit o = false ->
  write_pending (hd s) = None -> write_head (hd s) = [] ->
  let '(ret, s') := win_write o buf size s in
  ret = size /\
  write_pending (hd s') = None /\
  write_head (hd s') = [] /\
  error_pending (hd s') = error_pending (hd s) /\
  errno s' = errno s /\
  log s' = log s ++
           [EvAlloc (PtrWbuf (next_id s)); EvAlloc (PtrOp (S (next_id s)));
            EvWriteFileEx (h (hd s)) (PtrWbufData (next_id s)) 0 size
              (S (next_id s));
            EvFree (PtrOp (S (next_id s)))].
Proof.
  intros Hd Hm Hsub Hp Hq. unfold win_write, write_enqueue, initiate_write.
  rewrite Hd, Hm, Hsub. cbn. rewrite Hp, Hq. cbn.
  rewrite <- !app_assoc. repeat split; reflexivity.
Qed.

(** ** Closing, again *)

Lemma frees_queue_other p q :
  (forall id, p <> PtrWbuf id) -> (forall id, p <> PtrWbufData id) ->
  frees p (flat_map (fun b => [EvFree (PtrWbufData (wb_id b));
                               EvFree (PtrWbuf (wb_id b))]) q) = 0%nat.
Proof.
  intros H1 H2. induction q as [|b q IH]; [reflexivity|].
  cbn [flat_map]. rewrite frees_app, IH.
  destruct p; try reflexivity.
  - now destruct (H1 id).
  - now destruct (H2 id).
Qed.

Lemma free_write_queue_hd q : forall s,
  hd (free_write_queue q s) = set_write_head [] (hd s).
Proof. induction q as [|b q IH]; intros s; cbn; [reflexivity | now rewrite IH]. Qed.

(** X15: [win_close] returns 0 and frees the endpoint struct once; an
    operation context is freed by it exactly when it is the read or the
    write in flight and the OS accepted the cancellation -- a context
    whose cancellation is refused is left allocated. *)
Theorem win_close_accounts cancel_r cancel_w s id :
  let '(ret, s') := win_close cancel_r cancel_w s in
  ret = 0 /\
  frees PtrHandle (log s') = S (frees PtrHandle (log s)) /\
  frees (PtrOp id) (log s') =
    (frees (PtrOp id) (log s)
     + (if cancel_r && has_id id (read_pending (hd s)) then 1 else 0)
     + (if cancel_w && has_id id (write_pending (hd s)) then 1 else 0))%nat.
Proof.
  unfold win_close.
  assert (Q : forall p q s0, (forall i, p <> PtrWbuf i) ->
              (forall i, p <> PtrWbufData i) ->
              frees p (log (free_write_queue q s0)) = frees p (log s0) /\
              h (hd (free_write_queue q s0)) = h (hd s0) /\
              waitable (hd (free_write_queue q s0)) = waitable (hd s0)).
  { intros p q s0 H1 H2. rewrite free_write_queue_log, frees_app,
      frees_queue_other by assumption.
    split; [lia|]. rewrite free_write_queue_hd. split; reflexivity. }
  destruct (read_pending (hd s)) as [rop|]; destruct cancel_r;
    destruct (write_pending (hd s)) as [wop|] eqn:Hw; destruct cancel_w;
    cbn -[frees free_write_queue]; rewrite ?Hw; cbn -[frees free_write_queue];
    repeat match goal with
           | |- context [free_write_queue ?q ?s0] =>
               let A := fresh in let B := fresh in
               destruct (Q PtrHandle q s0 ltac:(discriminate) ltac:(discriminate))
                 as (A & _ & _);
               destruct (Q (PtrOp id) q s0 ltac:(discriminate) ltac:(discriminate))
                 as (B & ? & ?);
               generalize dependent (free_write_queue q s0); intros
           end;
    repeat match goal with
           | |- context [if negb (?a =? ?b) then _ else _] =>
               destruct (a =? b); cbn -[frees]
           end;
    cbn -[frees]; rewrite ?frees_app;
    repeat match goal with
           | H : frees ?p (log ?m) = _ |- context [frees ?p (log ?m)] =>
               rewrite H
           end;
    cbn -[frees]; rewrite ?frees_app; cbn;
    repeat match goal with
           | |- context [Nat.eqb ?a ?b] => destruct (Nat.eqb a b); cbn
           end;
    repeat split; lia.
Qed.

(** ** Connecting, again *)

(** X16: the accounting step of the connector subtracts the time elapsed
    since the deadline, (now - deadline), from the remaining time: once
    the deadline has passed the remaining time shrinks by the overrun, and
    while the deadline is still ahead it grows by the time left until the
    deadline.  A remaining time that is not positive is left as it is. *)
Theorem connect_account_formula timeoutms tick deadline :
  (0 < timeoutms ->
   - 2 ^ 31 <= timeoutms + (deadline - tick) < 2 ^ 31 ->
   connect_account timeoutms tick deadline = timeoutms + (deadline - tick)) /\
  (timeoutms <= 0 -> connect_account timeoutms tick deadline = timeoutms).
Proof.
  split.
  - intros Ht Hr. rewrite connect_account_exact by lia. lia.
  - intros Ht. unfold connect_account.
    destruct (Z.ltb_spec 0 timeoutms); [lia | reflexivity].
Qed.

Lemma connect_account_formula_witness :
  connect_account 100 1010 1100 = 100 + (1100 - 1010).
Proof.
  apply (proj1 (connect_account_formula 100 1010 1100)); lia.
Defined.

(** X17: when the connector gives up without retrying.  A path longer
    than 255 characters fails with E2BIG before anything is opened; with a
    timeout that is not positive, or on an error other than
    ERROR_PIPE_BUSY and ERROR_FILE_NOT_FOUND, the first failed open is
    final and its error is the one reported. *)
Theorem connect_gives_up_at_once o tick0 a script path timeoutms :
  (255 < Z.of_nat (String.length path) ->
   w_stm_connect_named_pipe o tick0 script path timeoutms =
     Some (ConnectFailed (Some E2BIG))) /\
  (Z.of_nat (String.length path) <= 255 ->
   ca_handle a = INVALID_HANDLE_VALUE ->
   timeoutms <= 0 \/ retry_helps (ca_err a) = false ->
   w_stm_connect_named_pipe o tick0 (a :: script) path timeoutms =
     Some (ConnectFailed (Some (map_win32_err (ca_err a))))).
Proof.
  unfold w_stm_connect_named_pipe. split.
  - intros Hl. destruct (Z.ltb_spec 255 (Z.of_nat (String.length path)));
      [reflexivity | lia].
  - intros Hl Hh Hc.
    destruct (Z.ltb_spec 255 (Z.of_nat (String.length path))); [lia|].
    cbn [connect_loop]. rewrite Hh. cbn.
    destruct Hc as [Ht|Hr].
    + unfold connect_account.
      destruct (Z.ltb_spec 0 timeoutms); [lia|].
      destruct (Z.leb_spec timeoutms 0); [reflexivity | lia].
    + rewrite Hr, orb_true_r. reflexivity.
Qed.

Lemma connect_loop_retries o a script' deadline span retries :
  forall timeoutms,
  Forall (retrying deadline span) retries ->
  ca_handle a <> INVALID_HANDLE_VALUE ->
  0 < timeoutms ->
  timeoutms + Z.of_nat (length retries) * span < 2 ^ 31 ->
  connect_loop o (retries ++ a :: script') deadline timeoutms =
    Some match w_stm_handleopen o (ca_handle a) with
         | Some s => Connected s
         | None => ConnectFailed None
         end.
Proof.
  induction retries as [|r retries IH]; intros timeoutms Hr Ha Ht Hb.
  - cbn. destruct (Z.eqb_spec (ca_handle a) INVALID_HANDLE_VALUE);
      [contradiction | reflexivity].
  - inversion Hr as [|? ? (Hh & Hretry & Hw & Htick) Hrest]; subst.
    cbn [app connect_loop]. rewrite Hh, Hretry. cbn [Z.eqb negb orb].
    cbn [length] in Hb.
    assert (Hacc : connect_account timeoutms (ca_tick r) deadline =
                   timeoutms + (deadline - ca_tick r)).
    { rewrite connect_account_exact by nia. lia. }
    rewrite Hacc.
    destruct (Z.leb_spec (timeoutms + (deadline - ca_tick r)) 0); [lia|].
    cbn [orb].
    assert (Hnext : connect_loop o (retries ++ a :: script') deadline
                      (timeoutms + (deadline - ca_tick r)) =
                    Some match w_stm_handleopen o (ca_handle a) with
                         | Some s => Connected s
                         | None => ConnectFailed None
                         end)
      by (apply IH; [assumption | assumption | lia | nia]).
    destruct (ca_wait r) as [err'|]; [|exact Hnext].
    destruct (Z.eqb_spec err' ERROR_SEM_TIMEOUT) as [->|_];
      [now destruct Hw | exact Hnext].
Qed.

(** X18: the connector keeps retrying while it should.  As long as the
    clock has not passed the deadline, every open that fails with
    ERROR_PIPE_BUSY or ERROR_FILE_NOT_FOUND (the wait for the pipe not
    timing out) leads to another open; the first open that yields a handle
    ends the call with the endpoint built on that handle. *)
Theorem connect_retries_until_open o tick0 a script' path timeoutms retries :
  Z.of_nat (String.length path) <= 255 ->
  0 < timeoutms ->
  (Z.of_nat (length retries) + 1) * timeoutms < 2 ^ 31 ->
  0 <= tick0 -> tick0 + timeoutms < 2 ^ 64 ->
  Forall (retrying (tick0 + timeoutms) timeoutms) retries ->
  ca_handle a <> INVALID_HANDLE_VALUE ->
  w_stm_connect_named_pipe o tick0 (retries ++ a :: script') path timeoutms =
    Some match w_stm_handleopen o (ca_handle a) with
         | Some s => Connected s
         | None => ConnectFailed None
         end.
Proof.
  intros Hl Ht Hb H0 H64 Hr Ha. unfold w_stm_connect_named_pipe.
  destruct (Z.ltb_spec 255 (Z.of_nat (String.length path))); [lia|].
  unfold to_DWORD64. rewrite Z.mod_small by lia.
  apply connect_loop_retries with (span := timeoutms); try assumption. lia.
Qed.

(** X19: an endpoint built by [w_stm_handleopen] starts consistent.  The
    handles INVALID_HANDLE_VALUE and NULL are always refused; the call
    fails exactly on these two handles or
    when one of its two allocations fails; otherwise the endpoint holds
    the handle and the new event, is in blocking mode with nothing in
    flight, no error latched, an empty well-formed read buffer and an
    empty write queue. *)
Theorem w_stm_handleopen_fresh o handle :
  w_stm_handleopen o INVALID_HANDLE_VALUE = None /\
  w_stm_handleopen o 0 = None /\
  (w_stm_handleopen o handle = None <->
   handle = INVALID_HANDLE_VALUE \/ handle = 0 \/
   oo_stm o = false \/ oo_handle o = false) /\
  match w_stm_handleopen o handle with
  | None =>
      handle = INVALID_HANDLE_VALUE \/ handle = 0 \/
      oo_stm o = false \/ oo_handle o = false
  | Some s =>
      h (hd s) = handle /\ waitable (hd s) = oo_event o /\
      blocking (hd s) = true /\
      read_pending (hd s) = None /\ write_pending (hd s) = None /\
      error_pending (hd s) = false /\
      read_inv (hd s) /\ unread (hd s) = [] /\
      write_order s
  end.
Proof.
  split; [reflexivity|]. split; [reflexivity|].
  unfold w_stm_handleopen.
  destruct (Z.eqb_spec handle INVALID_HANDLE_VALUE);
    [cbn; intuition auto|].
  destruct (Z.eqb_spec handle 0); [cbn; intuition auto|]. cbn [orb].
  destruct (oo_stm o); [|cbn; intuition auto].
  destruct (oo_handle o); [|cbn; intuition auto].
  cbn [negb hd h waitable blocking read_pending write_pending error_pending].
  split; [split; [discriminate | intuition congruence]|].
  split; [reflexivity|]. split; [reflexivity|]. split; [reflexivity|].
  split; [reflexivity|]. split; [reflexivity|]. split; [reflexivity|].
  split; [|split; reflexivity].
  unfold read_inv, sizeof_read_buf. cbn [read_buf read_cursor read_avail].
  rewrite repeat_length. repeat split; lia.
Qed.

(** ** Polling, again *)

Lemma evt_alter b k (p : list watchman_event_poll) :
  evt <$> alter (set_ready b) k p = evt <$> p.
Proof.
  apply list_eq. intros j. rewrite !list_lookup_fmap, list_lookup_alter.
  case_decide as E; [subst j|reflexivity].
  now destruct (p !! k).
Qed.

Lemma poll_clear_evt count : forall i p hs,
  evt <$> fst (poll_clear count i p hs) = evt <$> p.
Proof.
  induction count as [|count IH]; intros i p hs; cbn [poll_clear];
    [reflexivity|].
  now rewrite IH, evt_alter.
Qed.

(** X20: what [w_poll_events] leaves alone.  A call that returns changes
    no event handle of the array, and with a count [n] that is not
    negative it changes no entry from index [n] on: only the flags of the
    first [n] entries are written.  (The answer of the wait is a DWORD.) *)
Theorem w_poll_events_frame os_wait lasterr p n timeoutms ret p' e :
  (forall count handles millis, 0 <= os_wait count handles millis) ->
  w_poll_events os_wait lasterr p n timeoutms = PollReturned ret p' e ->
  evt <$> p' = evt <$> p /\
  (0 <= n -> forall j, n <= Z.of_nat j -> p' !! j = p !! j).
Proof.
  intros Hdword. unfold w_poll_events.
  assert (Hfatal : w_log_returns W_LOG_FATAL = false) by reflexivity.
  rewrite Hfatal.
  destruct (Z.ltb_spec (MAXIMUM_WAIT_OBJECTS - 1) n) as [Hn|Hn];
    [discriminate|]. unfold MAXIMUM_WAIT_OBJECTS in Hn.
  pose proof (poll_clear_lookup (Z.to_nat n) 0 p []) as Hl.
  pose proof (poll_clear_evt (Z.to_nat n) 0 p []) as He.
  destruct (poll_clear (Z.to_nat n) 0 p []) as [pc hs]. cbn [fst] in Hl, He.
  match goal with
  | |- context [os_wait ?a ?b ?c] =>
      generalize (Hdword a b c); generalize (os_wait a b c)
  end.
  intros res Hres.
  assert (Hkeep : forall j, n <= Z.of_nat j -> pc !! j = p !! j).
  { intros j Hj. rewrite Hl. case_decide; [lia | reflexivity]. }
  assert (Hmark : forall k, 0 <= n -> (k < Z.to_nat n)%nat ->
            forall j, n <= Z.of_nat j ->
                      alter (set_ready true) k pc !! j = p !! j).
  { intros k H0 Hk j Hj. rewrite list_lookup_alter_ne by lia. now apply Hkeep. }
  unfold WAIT_OBJECT_0, WAIT_ABANDONED_0.
  destruct (res =? WAIT_FAILED).
  { intros [= <- <- <-]. auto. }
  destruct (Z.ltb_spec res (to_DWORD (0 + n))) as [H1|H1].
  { intros [= <- <- <-]. split; [now rewrite evt_alter|].
    intros H0. rewrite to_DWORD_small in H1 by lia. apply Hmark; lia. }
  destruct (Z.leb_spec 128 res) as [H2|H2]; cbn [andb].
  - destruct (Z.ltb_spec res (to_DWORD (128 + n))) as [H3|H3].
    + intros [= <- <- <-]. split; [now rewrite evt_alter|].
      intros H0. rewrite to_DWORD_small in H3 by lia. apply Hmark; lia.
    + intros [= <- <- <-]. auto.
  - intros [= <- <- <-]. auto.
Qed.



(** ** Events *)

Lemma replay_app a : forall b t, replay (a ++ b) t = replay b (replay a t).
Proof.
  induction a as [|e a IH]; intros b t; [reflexivity|].
  destruct e; cbn; apply IH.
Qed.

Lemma initiate_write_quiet wfx_ok s :
  exists tl, log (initiate_write wfx_ok s) = log s ++ tl /\
             forall t, replay tl t = t.
Proof.
  unfold initiate_write.
  destruct (write_pending (hd s)); [|destruct (write_head (hd s)) as [|wb q]].
  1, 2: exists []; split; [now rewrite app_nil_r | reflexivity].
  destruct wfx_ok; cbn; rewrite <- ?app_assoc; cbn;
    eexists; (split; [reflexivity|]); reflexivity.
Qed.

(** X22: a failed write wakes a poller.  After the completion routine has
    run with an error code, the calls it made leave the event of the
    endpoint signaled, whatever its state was; polling that endpoint then
    returns 1 at once and flags it. *)
Theorem failed_write_wakes_poller wfx_ok err bytes op s t apc later lasterr
    timeoutms r :
  err <> 0 ->
  exists s1,
    write_completed wfx_ok err bytes op s = Done s1 /\
    win_get_events s1 = win_get_events s /\
    replay (drop (length (log s)) (log s1)) t (win_get_events s1) = true /\
    w_poll_events
      (WaitForMultipleObjectsEx
         (replay (drop (length (log s)) (log s1)) t) apc later)
      lasterr [{| evt := win_get_events s1; ready := r |}] 1 timeoutms =
    PollReturned 1 [{| evt := win_get_events s1; ready := true |}] None.
Proof.
  intros Herr. unfold write_completed.
  destruct (Z.eqb_spec err 0) as [E|_]; [contradiction|].
  set (s0 := if same_op _ _ then _ else s).
  assert (H0 : log s0 = log s /\ waitable (hd s0) = waitable (hd s)).
  { subst s0. destruct (same_op _ _); split; reflexivity. }
  clearbody s0. destruct H0 as [L0 W0].
  eexists. split; [reflexivity|].
  match goal with
  | |- context [initiate_write ?b ?q] =>
      destruct (initiate_write_quiet b q) as (tl & Hl & Hq);
      destruct (initiate_write_frame b q) as (_ & _ & _ & _ & Hw & _);
      set (s1 := initiate_write b q) in *
  end.
  cbn in Hl, Hw. unfold win_get_events. cbn [hd emit log].
  rewrite Hw, W0.
  assert (Hsig : replay (drop (length (log s))
                           (log s1 ++ [EvFree (PtrOp (op_id op))])) t
                   (waitable (hd s)) = true).
  { rewrite Hl, L0, <- !app_assoc, drop_app_length.
    cbn [app replay]. rewrite replay_app, Hq. cbn.
    unfold put_event. now rewrite W0, Z.eqb_refl. }
  split; [reflexivity|]. split; [exact Hsig|].
  unfold w_poll_events, WaitForMultipleObjectsEx.
  change (to_DWORD 1) with 1. change (Z.to_nat 1) with 1%nat.
  cbn. rewrite Hsig. reflexivity.
Qed.

(** X23: the event primitives.  An event that has been set is found set
    by [w_event_test_and_clear] once, and clear by the next test; a newly
    made event is clear; and setting or testing one event does not touch
    the others. *)
Theorem w_event_test_and_clear_once evt fresh t :
  let t1 := w_event_set evt t in
  let '(b1, t2) := w_event_test_and_clear evt t1 in
  let '(b2, t3) := w_event_test_and_clear evt t2 in
  b1 = true /\ b2 = false /\
  (forall e, e <> evt -> t3 e = t e) /\
  fst (w_event_test_and_clear (fst (w_event_make fresh t))
         (snd (w_event_make fresh t))) = false.
Proof.
  unfold w_event_set, w_event_test_and_clear, w_event_make, put_event.
  cbn. rewrite !Z.eqb_refl. cbn.
  repeat split; try reflexivity.
  intros e He. destruct (Z.eqb_spec e evt); [contradiction | reflexivity].
Qed.

(** ** The fallback for GetOverlappedResultEx *)

(** X24: with the fallback in use, the completion check of a non-blocking
    [win_read] cannot tell "not finished yet" from a failure.  When the
    result is not available and the clock does not move during the
    zero-length sleep, the fallback answers WAIT_TIMEOUT, not
    ERROR_IO_INCOMPLETE; [win_read] then frees the context of the read
    still in flight and fails with errno mapped from WAIT_TIMEOUT instead
    of EAGAIN. *)
Theorem win7_zero_timeout_is_failure turn script rf size s op :
  gt_result turn = None -> gt_apc turn = false ->
  gt_end turn = gt_start turn ->
  blocking (hd s) = false ->
  read_pending (hd s) = Some op ->
  win7_get_overlapped_result_ex (turn :: script)
    (if blocking (hd s) then INFINITE else 0) true =
    Some (OL_fail WAIT_TIMEOUT) /\
  let '(ret, out, s') :=
    win_read {| ro_olap := OL_fail WAIT_TIMEOUT; ro_read := rf |} size s in
  ret = -1 /\
  errno s' = Some (map_win32_err WAIT_TIMEOUT) /\
  read_pending (hd s') = None /\
  frees (PtrOp (op_id op)) (log s') = S (frees (PtrOp (op_id op)) (log s)).
Proof.
  intros Hr Ha He Hb Hp. split.
  - rewrite Hb. cbn [win7_get_overlapped_result_ex].
    rewrite Hr, Ha, He, Z.sub_diag. reflexivity.
  - unfold win_read, win_read_handle_completion. rewrite Hp. cbn -[frees].
    rewrite <- app_assoc, frees_app. cbn. rewrite Nat.eqb_refl. cbn.
    repeat split; try reflexivity. lia.
Qed.

(** X25: how the fallback counts down.  After a sleep of [e] ms without a
    result, a timeout of [millis] ms (not INFINITE) is over only if [e]
    equals it exactly; a shorter sleep leaves [millis - e], and a longer
    one wraps around to [millis - e + 2^32], so that the wait goes on
    with a timeout of weeks instead of ending. *)
Theorem win7_countdown turn script millis alertable :
  gt_result turn = None -> alertable && gt_apc turn = false ->
  0 <= millis < INFINITE ->
  0 <= gt_end turn - gt_start turn < 2 ^ 32 ->
  let e := gt_end turn - gt_start turn in
  win7_get_overlapped_result_ex (turn :: script) millis alertable =
  if e =? millis then Some (OL_fail WAIT_TIMEOUT)
  else if e <? millis
       then win7_get_overlapped_result_ex script (millis - e) alertable
       else win7_get_overlapped_result_ex script (millis - e + 2 ^ 32) alertable.
Proof.
  intros Hr Ha Hm He e. cbn [win7_get_overlapped_result_ex].
  rewrite Hr, Ha. unfold INFINITE in *.
  destruct (Z.eqb_spec millis 4294967295) as [E|_]; [lia|]. cbn [negb].
  fold e. unfold to_DWORD, to_DWORD64.
  rewrite (Z.mod_small e) by (subst e; lia).
  rewrite Z.mod_mod_divide by (exists (2 ^ 32); reflexivity).
  destruct (Z.eqb_spec e millis) as [->|Hne].
  - rewrite Z.sub_diag. reflexivity.
  - destruct (Z.ltb_spec e millis).
    + rewrite Z.mod_small by lia.
      destruct (Z.leb_spec (millis - e) 0); [lia | reflexivity].
    + replace ((millis - e) mod 2 ^ 32) with (millis - e + 2 ^ 32)
        by (apply Z.mod_unique with (-1); lia).
      destruct (Z.leb_spec (millis - e + 2 ^ 32) 0); [lia | reflexivity].
Qed.

Lemma win7_infinite script alertable : forall r,
  win7_get_overlapped_result_ex script INFINITE alertable = Some r ->
  (exists d, r = OL_ok d) \/ r = OL_fail WAIT_IO_COMPLETION.
Proof.
  induction script as [|t script IH]; intros r; cbn; [discriminate|].
  destruct (gt_result t) as [d|]; [intros [= <-]; eauto|].
  destruct (alertable && gt_apc t); [intros [= <-]; auto|].
  apply IH.
Qed.

(** X26: with an INFINITE timeout the fallback never reports a timeout:
    whenever it answers, it has the result, or a completion routine ended
    the sleep (WAIT_IO_COMPLETION); and it answers with the result as soon
    as [GetOverlappedResult] has it, without sleeping. *)
Theorem win7_infinite_never_times_out script alertable :
  (forall r,
     win7_get_overlapped_result_ex script INFINITE alertable = Some r ->
     (exists d, r = OL_ok d) \/ r = OL_fail WAIT_IO_COMPLETION) /\
  (forall turn d millis,
     gt_result turn = Some d ->
     win7_get_overlapped_result_ex (turn :: script) millis alertable =
       Some (OL_ok d)).
Proof.
  split.
  - apply win7_infinite.
  - intros turn d millis Hd. cbn. now rewrite Hd.
Qed.

(** ** Opening, again *)

(** X27: the access [w_handle_open] asks for.  A flag word with the
    O_WRONLY bit asks for write access only; without it read access is
    always included, together with write access exactly when the O_RDWR
    bit is present. *)
Theorem open_access_cases pf flags :
  (Z.land flags (O_WRONLY pf) <> 0 ->
   open_access pf flags = GENERIC_WRITE) /\
  (Z.land flags (O_WRONLY pf) = 0 -> Z.land flags (O_RDWR pf) <> 0 ->
   open_access pf flags = Z.lor GENERIC_WRITE GENERIC_READ) /\
  (Z.land flags (O_WRONLY pf) = 0 -> Z.land flags (O_RDWR pf) = 0 ->
   open_access pf flags = GENERIC_READ).
Proof.
  unfold open_access, has. rewrite Z.land_lor_distr_r.
  repeat split.
  - intros Hw.
    destruct (Z.eqb_spec (Z.lor (Z.land flags (O_WRONLY pf))
                            (Z.land flags (O_RDWR pf))) 0) as [E|_].
    + apply Z.lor_eq_0_iff in E. tauto.
    + destruct (Z.eqb_spec (Z.land flags (O_WRONLY pf)) 0); [contradiction|].
      reflexivity.
  - intros Hw Hr. rewrite Hw, Z.lor_0_l. cbn [Z.eqb].
    destruct (Z.eqb_spec (Z.land flags (O_RDWR pf)) 0); [contradiction|].
    reflexivity.
  - intros Hw Hr. rewrite Hw, Hr. reflexivity.
Qed.

(** ** The further theorems at concrete inputs *)

Ltac concrete := vm_compute; repeat split; congruence.

Lemma win_read_handle_completion_appends_witness :
  let '(pending, s') := win_read_handle_completion (OL_ok abcd) pending_read_pipe in
  pending = false /\
  read_pending (hd s') = None /\
  read_inv (hd s') /\
  unread (hd s') = unread (hd pending_read_pipe) ++ abcd /\
  frees (PtrOp (op_id read_op)) (log s') =
    S (frees (PtrOp (op_id read_op)) (log pending_read_pipe)).
Proof.
  apply (win_read_handle_completion_appends abcd pending_read_pipe read_op);
    concrete.
Defined.


Lemma win_read_non_blocking_in_order_witness :
  let o := {| ro_olap := OL_fail 0; ro_read := RF_ok efgh |} in
  let fresh := match ro_read o with RF_ok d => d | RF_fail _ => [] end in
  let '(ret, out, s') := win_read o 3 over_read_pipe in
  read_inv (hd s') /\
  out ++ unread (hd s') = unread (hd over_read_pipe) ++ fresh /\
  nbytes out = Z.min 3 (read_avail (hd over_read_pipe) + nbytes fresh) /\
  ret = match ro_read o with
        | RF_fail _ => if nbytes out =? 0 then -1 else nbytes out
        | RF_ok _ => nbytes out
        end.
Proof.
  apply (win_read_non_blocking_in_order
           {| ro_olap := OL_fail 0; ro_read := RF_ok efgh |} 3 over_read_pipe);
    try concrete.
  intros d [= <-]. concrete.
Defined.

Lemma win_read_in_flight_witness :
  let '(ret, out, s') := win_read would_block 4 pending_read_pipe in
  ret = -1 /\ out = [] /\ errno s' = Some EAGAIN /\
  hd s' = hd pending_read_pipe /\
  log s' = log pending_read_pipe ++
           [EvGetOverlappedResultEx (h (hd pending_read_pipe)) (op_id read_op)
              (if blocking (hd pending_read_pipe) then INFINITE else 0)].
Proof.
  apply (win_read_in_flight would_block 4 pending_read_pipe read_op);
    reflexivity.
Defined.

Lemma win_read_reports_failed_read_witness :
  let '(ret, out, s') :=
    win_read {| ro_olap := OL_fail 109; ro_read := RF_fail 0 |} 4
      pending_read_pipe in
  ret = -1 /\ out = [] /\
  errno s' = Some (map_win32_err 109) /\
  errcode (hd s') = 109 /\
  error_pending (hd s') = false /\
  read_pending (hd s') = None /\
  log s' = log pending_read_pipe ++
           [EvGetOverlappedResultEx (h (hd pending_read_pipe)) (op_id read_op)
              (if blocking (hd pending_read_pipe) then INFINITE else 0);
            EvFree (PtrOp (op_id read_op))].
Proof.
  apply (win_read_reports_failed_read
           {| ro_olap := OL_fail 109; ro_read := RF_fail 0 |} 4
           pending_read_pipe read_op 109); try reflexivity.
  vm_compute. congruence.
Defined.

Lemma win_read_after_would_block_witness :
  let o2 := {| ro_olap := OL_ok abcd; ro_read := RF_fail ERROR_IO_PENDING |} in
  let fresh := match ro_read o2 with RF_ok d2 => d2 | RF_fail _ => [] end in
  let '(ret1, out1, s1) := win_read would_block 4 (win_set_nonb true fresh_pipe) in
  ret1 = -1 /\ out1 = [] /\
  errno s1 = Some (map_win32_err ERROR_IO_PENDING) /\
  is_Some (read_pending (hd s1)) /\
  let '(ret2, out2, s2) := win_read o2 2 s1 in
  0 < ret2 /\ ret2 = nbytes out2 /\
  ret2 = Z.min 2 (nbytes abcd + nbytes fresh) /\
  out2 ++ unread (hd s2) = abcd ++ fresh.
Proof.
  apply (win_read_after_would_block would_block
           {| ro_olap := OL_ok abcd; ro_read := RF_fail ERROR_IO_PENDING |}
           4 2 abcd (win_set_nonb true fresh_pipe)); concrete.
Defined.

Lemma write_order_kept_witness :
  write_order (state_of (run_writes some_writes fresh_pipe) fresh_pipe).
Proof.
  apply (write_order_kept some_writes fresh_pipe
           (state_of (run_writes some_writes fresh_pipe) fresh_pipe));
    vm_compute; reflexivity.
Defined.

Lemma win_shutdown_returns_idle_witness :
  win_shutdown [Woke] fresh_pipe =
  Some (Done (with_hd (set_blocking true) fresh_pipe)).
Proof.
  apply (proj2 (win_shutdown_returns_idle [Woke] fresh_pipe)). reflexivity.
Defined.

Lemma write_failure_reaches_reader_witness :
  exists s1,
    write_completed true 232 0 abcd_op busy_pipe = Done s1 /\
    In (EvSetEvent (waitable (hd busy_pipe))) (log s1) /\
    let '(ret, out, s2) := win_read would_block 4 s1 in
    ret = -1 /\ out = [] /\
    errno s2 = Some (map_win32_err 232) /\
    error_pending (hd s2) = false.
Proof.
  apply (write_failure_reaches_reader true 232 0 abcd_op would_block 4
           busy_pipe); [discriminate | reflexivity].
Defined.

Lemma direct_write_failure_reported_witness :
  let '(ret, s1) :=
    win_write {| wo_write := WF_fail 112; wo_malloc := true; wo_submit := true |}
      abcd 4 fresh_file in
  ret = -1 /\
  errno s1 = Some (map_win32_err 112) /\
  write_head (hd s1) = write_head (hd fresh_file) /\
  log s1 = log fresh_file ++
           [EvWriteFile (h (hd fresh_file)) PtrCaller 4;
            EvSetEvent (waitable (hd fresh_file))] /\
  let '(ret2, out2, s2) := win_read would_block 4 s1 in
  ret2 = -1 /\ out2 = [] /\
  errno s2 = Some (map_win32_err 112) /\
  error_pending (hd s2) = false /\
  log s2 = log s1.
Proof.
  apply (direct_write_failure_reported
           {| wo_write := WF_fail 112; wo_malloc := true; wo_submit := true |}
           abcd 4 112 would_block 4 fresh_file); reflexivity.
Defined.

Lemma write_completed_accounts_witness :
  exists s',
    write_completed true 0 4 abcd_op busy_pipe = Done s' /\
    frees (PtrWbuf (wb_id abcd_buf)) (log s') =
      S (frees (PtrWbuf (wb_id abcd_buf)) (log busy_pipe)) /\
    frees (PtrOp (op_id abcd_op)) (log s') =
      S (frees (PtrOp (op_id abcd_op)) (log busy_pipe)) /\
    has_id (op_id abcd_op) (write_pending (hd s')) = false.
Proof.
  exact (write_completed_accounts true 4 abcd_op abcd_buf busy_pipe
           eq_refl eq_refl ltac:(vm_compute; lia)).
Defined.

Lemma win_write_refused_submission_witness :
  let '(ret, s') := win_write refused abcd 4 fresh_pipe in
  ret = 4 /\
  write_pending (hd s') = None /\
  write_head (hd s') = [] /\
  error_pending (hd s') = error_pending (hd fresh_pipe) /\
  errno s' = errno fresh_pipe /\
  log s' = log fresh_pipe ++
           [EvAlloc (PtrWbuf (next_id fresh_pipe));
            EvAlloc (PtrOp (S (next_id fresh_pipe)));
            EvWriteFileEx (h (hd fresh_pipe)) (PtrWbufData (next_id fresh_pipe))
              0 4 (S (next_id fresh_pipe));
            EvFree (PtrOp (S (next_id fresh_pipe)))].
Proof.
  apply (win_write_refused_submission refused abcd 4 fresh_pipe); reflexivity.
Defined.

Lemma connect_gives_up_at_once_witness :
  w_stm_connect_named_pipe pipe_oracle 1000 [access_denied] "\\.\pipe\w" 100 =
    Some (ConnectFailed (Some (map_win32_err (ca_err access_denied)))).
Proof.
  apply (proj2 (connect_gives_up_at_once pipe_oracle 1000 access_denied []
                  "\\.\pipe\w" 100)).
  - vm_compute. congruence.
  - reflexivity.
  - right. reflexivity.
Defined.

Lemma connect_retries_until_open_witness :
  w_stm_connect_named_pipe pipe_oracle 1000 (busy_twice ++ opens_7 :: [])
    "\\.\pipe\w" 100 =
    Some match w_stm_handleopen pipe_oracle (ca_handle opens_7) with
         | Some s => Connected s
         | None => ConnectFailed None
         end.
Proof.
  apply (connect_retries_until_open pipe_oracle 1000 opens_7 [] "\\.\pipe\w"
           100 busy_twice); try (vm_compute; congruence).
  repeat constructor; vm_compute; congruence.
Defined.

Lemma WaitForMultipleObjectsEx_dword signaled apc later count handles millis :
  0 <= later ->
  0 <= WaitForMultipleObjectsEx signaled apc later count handles millis.
Proof.
  intros Hl. unfold WaitForMultipleObjectsEx.
  destruct (_ || _); [vm_compute; congruence|].
  destruct (first_signaled _ _); [unfold WAIT_OBJECT_0; lia|].
  destruct apc; [vm_compute; congruence|].
  destruct (millis =? 0); [vm_compute; congruence | exact Hl].
Qed.

Lemma w_poll_events_frame_witness :
  evt <$> [{| evt := 11; ready := false |}; {| evt := 12; ready := true |};
           {| evt := 13; ready := true |}] = evt <$> three_endpoints /\
  (0 <= 2 -> forall j, 2 <= Z.of_nat j ->
     [{| evt := 11; ready := false |}; {| evt := 12; ready := true |};
      {| evt := 13; ready := true |}] !! j = three_endpoints !! j).
Proof.
  apply (w_poll_events_frame (WaitForMultipleObjectsEx only_12 false 0) 0
           three_endpoints 2 50 1
           [{| evt := 11; ready := false |}; {| evt := 12; ready := true |};
            {| evt := 13; ready := true |}] None).
  - intros count handles millis. apply WaitForMultipleObjectsEx_dword. lia.
  - reflexivity.
Defined.


Lemma failed_write_wakes_poller_witness :
  exists s1,
    write_completed true 232 0 abcd_op busy_pipe = Done s1 /\
    win_get_events s1 = win_get_events busy_pipe /\
    replay (drop (length (log busy_pipe)) (log s1)) none_signaled
      (win_get_events s1) = true /\
    w_poll_events
      (WaitForMultipleObjectsEx
         (replay (drop (length (log busy_pipe)) (log s1)) none_signaled)
         false 0)
      0 [{| evt := win_get_events s1; ready := false |}] 1 0 =
    PollReturned 1 [{| evt := win_get_events s1; ready := true |}] None.
Proof.
  apply (failed_write_wakes_poller true 232 0 abcd_op busy_pipe none_signaled
           false 0 0 0 false).
  discriminate.
Defined.

Lemma win7_zero_timeout_is_failure_witness :
  win7_get_overlapped_result_ex (slept 500 500 :: [])
    (if blocking (hd pending_read_pipe) then INFINITE else 0) true =
    Some (OL_fail WAIT_TIMEOUT) /\
  let '(ret, out, s') :=
    win_read {| ro_olap := OL_fail WAIT_TIMEOUT; ro_read := RF_fail 0 |} 4
      pending_read_pipe in
  ret = -1 /\
  errno s' = Some (map_win32_err WAIT_TIMEOUT) /\
  read_pending (hd s') = None /\
  frees (PtrOp (op_id read_op)) (log s') =
    S (frees (PtrOp (op_id read_op)) (log pending_read_pipe)).
Proof.
  apply (win7_zero_timeout_is_failure (slept 500 500) [] (RF_fail 0) 4
           pending_read_pipe read_op); reflexivity.
Defined.

Lemma win7_countdown_witness :
  let e := gt_end (slept 500 610) - gt_start (slept 500 610) in
  win7_get_overlapped_result_ex (slept 500 610 :: [slept 610 620]) 100 true =
  if e =? 100 then Some (OL_fail WAIT_TIMEOUT)
  else if e <? 100
       then win7_get_overlapped_result_ex [slept 610 620] (100 - e) true
       else win7_get_overlapped_result_ex [slept 610 620] (100 - e + 2 ^ 32) true.
Proof.
  apply (win7_countdown (slept 500 610) [slept 610 620] 100 true);
    try reflexivity; vm_compute; repeat split; congruence.
Defined.

Lemma win7_infinite_never_times_out_witness :
  win7_get_overlapped_result_ex
    ({| gt_result := Some abcd; gt_start := 0; gt_apc := false; gt_end := 0 |}
     :: []) INFINITE true = Some (OL_ok abcd).
Proof.
  apply (proj2 (win7_infinite_never_times_out [] true)). reflexivity.
Defined.

Lemma open_access_cases_witness :
  open_access nul_platform 1 = GENERIC_WRITE.
Proof.
  apply (proj1 (open_access_cases nul_platform 1)). vm_compute. congruence.
Defined.

Lemma frees_queue_absent id q :
  ~ In id (List.map wb_id q) ->
  frees (PtrWbuf id)
    (flat_map (fun b => [EvFree (PtrWbufData (wb_id b));
                         EvFree (PtrWbuf (wb_id b))]) q) = 0%nat.
Proof.
  induction q as [|b q IH]; intros Hn; [reflexivity|].
  cbn [flat_map]. rewrite frees_app, IH by (cbn in Hn; tauto).
  cbn. destruct (Nat.eqb_spec id (wb_id b)) as [E|_]; [|reflexivity].
  destruct Hn. left. now symmetry.
Qed.

(** X28: what [win_close] does for the writes when one is in flight.
    Every buffer still queued is released (first [free(b->data)], the
    array inside the buffer, then [free(b)]), but the buffer of the write
    in flight, which [initiate_write] took off the queue, is not freed,
    whether or not the cancellation was accepted. *)
Theorem win_close_with_write_in_flight cancel_r cancel_w s op wb :
  write_pending (hd s) = Some op -> wbuf op = Some wb ->
  ~ In (wb_id wb) (waiting (hd s)) ->
  let s' := snd (win_close cancel_r cancel_w s) in
  (forall b, In b (write_head (hd s)) ->
     exists l1 l2,
       log s' = l1 ++ [EvFree (PtrWbufData (wb_id b));
                       EvFree (PtrWbuf (wb_id b))] ++ l2) /\
  frees (PtrWbuf (wb_id wb)) (log s') = frees (PtrWbuf (wb_id wb)) (log s).
Proof.
  intros Hp Hw Hn s'. split.
  - intros b Hb.
    destruct (win_close_busy_walks_queue cancel_r cancel_w s op Hp)
      as (before & after & Hl).
    apply in_split in Hb as (q1 & q2 & Hq).
    subst s'. rewrite Hl, Hq, flat_map_app. cbn [flat_map].
    match goal with
    | |- context [before ++ (?f1 ++ ?ab ++ ?f2) ++ after] =>
        exists (before ++ f1), (f2 ++ after)
    end.
    rewrite <- !app_assoc. reflexivity.
  - subst s'. unfold win_close, waiting in *.
    set (s1 := match read_pending (hd s) with
               | Some rop => _
               | None => s
               end).
    assert (H1 : write_pending (hd s1) = Some op /\
                 write_head (hd s1) = write_head (hd s) /\
                 frees (PtrWbuf (wb_id wb)) (log s1) =
                 frees (PtrWbuf (wb_id wb)) (log s)).
    { subst s1. destruct (read_pending (hd s)); [destruct cancel_r|];
        cbn -[frees]; rewrite ?frees_app; cbn; repeat split; auto; lia. }
    destruct H1 as (H1 & H2 & H3). rewrite H1.
    set (s2 := if cancel_w then _ else _).
    assert (H4 : write_head (hd s2) = write_head (hd s) /\
                 frees (PtrWbuf (wb_id wb)) (log s2) =
                 frees (PtrWbuf (wb_id wb)) (log s)).
    { subst s2. destruct cancel_w; cbn -[frees]; rewrite ?frees_app, H3; cbn;
        split; auto; lia. }
    destruct H4 as (H4 & H5). rewrite H4.
    pose proof (free_write_queue_log (write_head (hd s)) s2) as Hq.
    pose proof (free_write_queue_hd (write_head (hd s)) s2) as Hh.
    set (s3 := free_write_queue _ s2) in *.
    assert (H6 : frees (PtrWbuf (wb_id wb)) (log s3) =
                 frees (PtrWbuf (wb_id wb)) (log s)).
    { rewrite Hq, frees_app, frees_queue_absent, H5 by exact Hn. lia. }
    clearbody s3.
    destruct (negb (h (hd s3) =? INVALID_HANDLE_VALUE));
      match goal with
      | |- context [if ?b then _ else _] => destruct b
      end; cbn -[frees]; rewrite ?frees_app, H6; cbn; lia.
Qed.

Lemma win_close_with_write_in_flight_witness :
  let s' := snd (win_close true true three_writes) in
  (forall b, In b (write_head (hd three_writes)) ->
     exists l1 l2,
       log s' = l1 ++ [EvFree (PtrWbufData (wb_id b));
                       EvFree (PtrWbuf (wb_id b))] ++ l2) /\
  frees (PtrWbuf (wb_id abcd_buf)) (log s') =
    frees (PtrWbuf (wb_id abcd_buf)) (log three_writes).
Proof.
  apply (win_close_with_write_in_flight true true three_writes abcd_op
           abcd_buf); try reflexivity.
  vm_compute. intuition congruence.
Defined.
